(** * plot_throughput.py: throughput statistics by scenario

    A shallow embedding of [src/plot_throughput.py] and the properties its
    specification states about it.

    The script is a straight line of calls: it resolves the CSV path, checks
    that the file exists, loads it with pandas, groups the rows by
    [scenario], aggregates [QPS] (mean, std, count), sorts the groups by
    mean, draws a bar chart, saves it next to the input and prints a table.

    Modelling decisions, kept the same throughout:
    - a Python [str] is a Rocq [string], one [ascii] per character (code
      points below 256, so that the plus-minus sign of the report is the
      single character 177);
    - a number of the frame is a binary64 float, Rocq's primitive [float],
      whose operations round as the hardware does.  A [QPS] cell that is
      empty in the file is NaN, and pandas leaves NaN cells out of [count],
      [mean] and [std];
    - [read_csv] decides the type of the [scenario] column: it is text, or
      it holds whole numbers only.  Both kinds of frame are in the model,
      because the script goes on differently: line 73 formats the scenario
      with ['20s'], which raises on a number.  A missing [scenario] cell is
      [None], as pandas reads it as NaN.  Other column types (fractions,
      booleans) are outside the model;
    - the library calls are modelled by what the libraries do: [groupby]
      (sorted keys, NaN keys dropped), the one-pass group mean (with a
      compensated sum) and group variance of pandas, [str.replace], the
      ['f'] format of numbers, and [savefig] (format inferred from the
      extension, the file opened for writing in its directory).  Which
      algorithm [sort_values] runs depends on the build of numpy, so the
      script is parameterised over a sort that meets its contract, and the
      generic quicksort of numpy is embedded as one such sort;
    - effects are an event trace, an outcome and the files after the run.
      An exception that escapes makes the interpreter write a traceback on
      standard error; its text depends on the installation and is a
      parameter of the world, like the image formats matplotlib can
      write.  Failures of the operating system other than a missing
      directory (no permission, a full disk, a directory in the place of
      the image) are outside the model. *)

From Stdlib Require Import List String Ascii Bool Arith ZArith QArith Lia.
From Stdlib Require Import Permutation Sorted Qfield.
From Stdlib Require Import Floats.
From Stdlib Require Uint63.
From Stdlib Require DecimalString DecimalPos DecimalN.
Import ListNotations.

Local Open Scope list_scope.
Local Open Scope string_scope.

(** * The program *)

(** ** Python strings *)

Module Str.

(** [old in s]: the pattern occurs somewhere in [s]. *)
Fixpoint contains (old s : string) : bool :=
  prefix old s ||
  match s with
  | EmptyString => false
  | String _ s' => contains old s'
  end.

(** [str.replace(old, new)]: the occurrences of [old] are found from the
    left, without overlap, and each is replaced by [new].  [skip] counts
    the characters of a matched occurrence still to be passed over.  For
    an empty [old] Python puts [new] before every character and at the
    end. *)
Fixpoint replace_from (old new : string) (skip : nat) (s : string) : string :=
  match skip, s with
  | S k, String _ s' => replace_from old new k s'
  | S _, EmptyString => EmptyString
  | O, EmptyString => if prefix old EmptyString then new else EmptyString
  | O, String c s' =>
      if prefix old s then
        match old with
        | EmptyString => new ++ String c (replace_from old new 0 s')
        | String _ o' => new ++ replace_from old new (length o') s'
        end
      else String c (replace_from old new 0 s')
  end.

Definition replace (old new s : string) : string := replace_from old new 0 s.

(** [sep.join(s0 :: l)] for a non-empty list of pieces. *)
Fixpoint join (sep s0 : string) (l : list string) : string :=
  match l with
  | [] => s0
  | s1 :: l' => s0 ++ sep ++ join sep s1 l'
  end.

(** The characters of a string, for membership. *)
Fixpoint has_char (c : ascii) (s : string) : bool :=
  match s with
  | EmptyString => false
  | String a s' => Ascii.eqb a c || has_char c s'
  end.

(** The text after the last [c] of [s]; [None] when [c] does not occur. *)
Fixpoint tail_after (c : ascii) (s : string) : option string :=
  match s with
  | EmptyString => None
  | String a s' =>
      match tail_after c s' with
      | Some t => Some t
      | None => if Ascii.eqb a c then Some s' else None
      end
  end.

(** [s.lstrip(c)] and [s.rstrip(c)] for a single character. *)
Fixpoint lstrip (c : ascii) (s : string) : string :=
  match s with
  | String a s' => if Ascii.eqb a c then lstrip c s' else s
  | EmptyString => EmptyString
  end.

Fixpoint rstrip (c : ascii) (s : string) : string :=
  match s with
  | EmptyString => EmptyString
  | String a s' =>
      match rstrip c s' with
      | EmptyString => if Ascii.eqb a c then EmptyString else String a EmptyString
      | t => String a t
      end
  end.

(** [s.lower()] on the ASCII letters. *)
Definition lower_char (a : ascii) : ascii :=
  let n := nat_of_ascii a in
  if (65 <=? n)%nat && (n <=? 90)%nat then ascii_of_nat (n + 32) else a.

Fixpoint lower (s : string) : string :=
  match s with
  | EmptyString => EmptyString
  | String a s' => String (lower_char a) (lower s')
  end.

(** [c * n] *)
Fixpoint repeat (c : ascii) (n : nat) : string :=
  match n with
  | O => EmptyString
  | S k => String c (repeat c k)
  end.

(** Padding of a format field of width [w]: strings are left-aligned and
    numbers right-aligned; a text longer than the field is kept whole. *)
Definition ljust (w : nat) (s : string) : string :=
  s ++ repeat " " (w - length s).

Definition rjust (w : nat) (s : string) : string :=
  repeat " " (w - length s) ++ s.

End Str.

(** ** The output path (line 64) *)

Definition output_file (csv_file : string) : string :=
  Str.replace ".csv" "_throughput.png" csv_file.

(** The directory part of a path, up to and including its last slash:
    two paths are siblings when they share it. *)
Fixpoint dirname (p : string) : string :=
  match p with
  | EmptyString => EmptyString
  | String a p' => if Str.has_char "/" p then String a (dirname p') else EmptyString
  end.

(** [os.path.splitext(p)[1][1:]]: the extension of the last path
    component, without its dot.  Leading dots of the component do not
    start an extension. *)
Definition basename (p : string) : string :=
  match Str.tail_after "/" p with
  | Some t => t
  | None => p
  end.

Definition extension (p : string) : string :=
  match Str.tail_after "." (Str.lstrip "." (basename p)) with
  | Some e => e
  | None => EmptyString
  end.

(** ** Numbers and their ['f'] format *)

(** What a binary64 float holds: NaN, an infinity, the negative zero, or
    a rational number. *)
Inductive fnum : Type :=
| NaN
| Infinity (neg : bool)
| NegZero
| Rat (q : Q).

(** [m * 2^e], and the value of a float, in lowest terms. *)
Definition dyadic (m : positive) (e : Z) : Q :=
  match e with
  | Z0 => Zpos m # 1
  | Zpos p => Zpos (m * 2 ^ p) # 1
  | Zneg p => Zpos m # 2 ^ p
  end.

Definition value (x : float) : fnum :=
  match Prim2SF x with
  | S754_nan => NaN
  | S754_infinity s => Infinity s
  | S754_zero s => if s then NegZero else Rat 0
  | S754_finite s m e => Rat (Qred (if s then - dyadic m e else dyadic m e))
  end.

Definition Qn (n : nat) : Q := inject_Z (Z.of_nat n).

(** Rounding to an integer, ties to the even neighbour: [f] is the floor
    and [c] compares the remainder with one half. *)
Definition half_even (f : Z) (c : comparison) : Z :=
  match c with
  | Lt => f
  | Gt => (f + 1)%Z
  | Eq => if Z.even f then f else (f + 1)%Z
  end.

(** [round (|x| * 10^p)] *)
Definition round_scaled (p : nat) (x : Q) : Z :=
  let n := (Z.abs (Qnum x) * 10 ^ Z.of_nat p)%Z in
  let d := Zpos (Qden x) in
  half_even (n / d)%Z (2 * (n mod d) ?= d)%Z.

Definition digits (z : Z) : string :=
  DecimalString.NilZero.string_of_uint (N.to_uint (Z.to_N z)).

(** The [','] option: a comma before every group of three digits. *)
Fixpoint group3 (s : string) : string :=
  match s with
  | EmptyString => EmptyString
  | String c s' =>
      String c
        (if (0 <? length s')%nat && (length s' mod 3 =? 0)%nat
         then String "," (group3 s') else group3 s')
  end.

Definition fixed (p : nat) (neg : bool) (r : Z) : string :=
  let m := (10 ^ Z.of_nat p)%Z in
  let frac := digits (r mod m)%Z in
  (if neg then "-" else "") ++ group3 (digits (r / m)%Z) ++
  match p with
  | O => ""
  | S _ => "." ++ Str.repeat "0" (p - length frac) ++ frac
  end.

(** [f'{x:w,.pf}']: the decimal numeral nearest to the exact value of the
    float. *)
Definition format_f (w p : nat) (x : fnum) : string :=
  Str.rjust w
    match x with
    | NaN => "nan"
    | Infinity neg => if neg then "-inf" else "inf"
    | NegZero => fixed p true 0
    | Rat q => fixed p (Qnum q <? 0)%Z (round_scaled p q)
    end.

(** [f'{s:ws}'] *)
Definition format_s (w : nat) (s : string) : string := Str.ljust w s.

(** ** The arithmetic of the aggregation *)

(** The operations the aggregation uses.  The script runs them on
    binary64 floats, where every operation rounds; the same formulas over
    the rationals say what is computed, rounding aside. *)
Class Arithmetic (F : Type) : Type := {
  fzero : F;
  fadd : F -> F -> F;
  fsub : F -> F -> F;
  fmul : F -> F -> F;
  fdiv : F -> F -> F;
  fcount : nat -> F;
  fisnan : F -> bool
}.

(** An integer count as a float. *)
Definition float_of_nat (n : nat) : float := PrimFloat.of_uint63 (Uint63.of_Z (Z.of_nat n)).

#[export] Instance binary64 : Arithmetic float := {|
  fzero := 0%float;
  fadd := PrimFloat.add;
  fsub := PrimFloat.sub;
  fmul := PrimFloat.mul;
  fdiv := PrimFloat.div;
  fcount := float_of_nat;
  fisnan := PrimFloat.is_nan
|}.

#[export] Instance exact : Arithmetic Q := {|
  fzero := 0%Q;
  fadd := Qplus;
  fsub := Qminus;
  fmul := Qmult;
  fdiv := Qdiv;
  fcount := Qn;
  fisnan := fun _ => false
|}.

(** ** The data frame and its aggregation (line 21) *)

(** What a group key needs: a test of equality and the order in which
    [groupby] lists the groups.  Text compares character by character,
    numbers by value. *)
Class Key (K : Type) : Type := {
  key_eqb : K -> K -> bool;
  key_leb : K -> K -> bool;
  key_eqb_eq : forall a b : K, key_eqb a b = true <-> a = b
}.

#[export] Instance string_key : Key string := {|
  key_eqb := String.eqb;
  key_leb := String.leb;
  key_eqb_eq := String.eqb_eq
|}.

#[export] Instance Z_key : Key Z := {|
  key_eqb := Z.eqb;
  key_leb := Z.leb;
  key_eqb_eq := Z.eqb_eq
|}.

Definition key_dec {K : Type} `{Key K} (a b : K) : {a = b} + {a <> b} :=
  match key_eqb a b as t return key_eqb a b = t -> {a = b} + {a <> b} with
  | true => fun E => left (proj1 (key_eqb_eq a b) E)
  | false => fun E => right (fun H => eq_ind true (fun t => t = false -> False)
                                        (fun D => diff_true_false D) _
                                        (eq_sym (proj2 (key_eqb_eq a b) H)) E)
  end eq_refl.

(** A row of the loaded frame: the two columns the script reads.  [K] is
    the type of the [scenario] column. *)
Module Row.
Record row (K : Type) : Type := { scenario : option K; QPS : float }.
Arguments Build_row {K}.
Arguments scenario {K}.
Arguments QPS {K}.
End Row.

(** The frames [read_csv] returns: with a [scenario] column of text, or
    of whole numbers. *)
Definition DataFrame : Type := list (Row.row string).
Definition NumberFrame : Type := list (Row.row Z).

(** A row of [df.groupby('scenario')['QPS'].agg(['mean', 'std', 'count'])
    .reset_index()]. *)
Module Agg.
Record row (K : Type) : Type := { scenario : K; mean : float; std : float; count : nat }.
Arguments Build_row {K}.
Arguments scenario {K}.
Arguments mean {K}.
Arguments std {K}.
Arguments count {K}.
End Agg.

(** A generic insertion sort: [x] goes before the first element it is
    [le] to, so equal elements keep their order. *)
Fixpoint insert_by {A : Type} (le : A -> A -> bool) (x : A) (l : list A) : list A :=
  match l with
  | [] => [x]
  | y :: l' => if le x y then x :: l else y :: insert_by le x l'
  end.

Definition isort {A : Type} (le : A -> A -> bool) (l : list A) : list A :=
  fold_right (insert_by le) [] l.

(** The group keys: the scenarios that are present, each once, in
    ascending order ([groupby] has [sort=True] and [dropna=True]). *)
Definition keys {K : Type} (df : list (Row.row K)) : list K :=
  flat_map (fun r => match Row.scenario r with Some s => [s] | None => [] end) df.

Definition uniques {K : Type} `{Key K} (df : list (Row.row K)) : list K :=
  isort key_leb (nodup key_dec (keys df)).

Definition in_group {K : Type} `{Key K} (k : K) (r : Row.row K) : bool :=
  match Row.scenario r with
  | Some s => key_eqb s k
  | None => false
  end.

(** The accumulators pandas keeps per group label while it walks the
    rows once ([group_mean] and [group_var]): the number of observations,
    their sum with the compensation of its rounding error (Kahan
    summation), the running mean and the sum of squared deviations
    (Welford's update). *)
Record accum (F : Type) : Type :=
  { nobs : nat; sumx : F; compensation : F; wmean : F; m2 : F }.
Arguments Build_accum {F}.
Arguments nobs {F}.
Arguments sumx {F}.
Arguments compensation {F}.
Arguments wmean {F}.
Arguments m2 {F}.

Definition accum0 {F : Type} `{Arithmetic F} : accum F :=
  {| nobs := 0; sumx := fzero; compensation := fzero; wmean := fzero; m2 := fzero |}.

(** One value of the group.  A NaN value is no observation. *)
Definition observe {F : Type} `{Arithmetic F} (a : accum F) (val : F) : accum F :=
  if fisnan val then a
  else
    let n := S (nobs a) in
    let y := fsub val (compensation a) in
    let t := fadd (sumx a) y in
    let c := fsub (fsub t (sumx a)) y in
    let oldmean := wmean a in
    let newmean := fadd oldmean (fdiv (fsub val oldmean) (fcount n)) in
    {| nobs := n;
       sumx := t;
       compensation := if fisnan c then fzero else c;
       wmean := newmean;
       m2 := fadd (m2 a) (fmul (fsub val newmean) (fsub val oldmean)) |}.

(** The walk over the rows, seen from the label [k]: the rows of the
    other labels, and the rows without a label, leave its accumulators
    alone. *)
Definition scan {K : Type} `{Key K} (k : K) (df : list (Row.row K)) : accum float :=
  fold_left (fun a r => if in_group k r then observe a (Row.QPS r) else a) df accum0.

(** The three aggregates of a group: the mean is NaN without an
    observation, and [std] has [ddof=1], so it is NaN below two. *)
Definition finish {K : Type} (k : K) (a : accum float) : Agg.row K :=
  let ct := float_of_nat (nobs a) in
  {| Agg.scenario := k;
     Agg.mean := if (nobs a =? 0)%nat then nan else (sumx a / ct)%float;
     Agg.std := if (nobs a <=? 1)%nat then nan else sqrt (m2 a / (ct - 1))%float;
     Agg.count := nobs a |}.

Definition groupby_agg {K : Type} `{Key K} (df : list (Row.row K)) : list (Agg.row K) :=
  map (fun k => finish k (scan k df)) (uniques df).

(** ** Sorting by mean (line 24) *)

(** The order [sort_values('mean', ascending=False)] is asked for: the
    means do not increase, and the rows whose mean is NaN come last
    ([na_position='last']). *)
Definition mean_geb {K : Type} (a b : Agg.row K) : bool :=
  is_nan (Agg.mean b) || (negb (is_nan (Agg.mean a)) && (Agg.mean b <=? Agg.mean a)%float).

Definition mean_ge {K : Type} (a b : Agg.row K) : Prop := mean_geb a b = true.

(** [sort_values] is called without [kind], so pandas sorts with its
    default, quicksort, and numpy picks the implementation: its generic
    introsort, or a vectorised sort on the processors that have one.
    What every one of them returns is a rearrangement of the rows in the
    order asked for; the script is parameterised over such a sort. *)
Class SortValues : Type := {
  sort_values : forall {K : Type}, list (Agg.row K) -> list (Agg.row K);
  sort_values_perm : forall (K : Type) (l : list (Agg.row K)), Permutation l (sort_values l);
  sort_values_sorted : forall (K : Type) (l : list (Agg.row K)),
      StronglySorted mean_ge (sort_values l)
}.

Definition scenario_throughput `{SortValues} {K : Type} `{Key K}
    (df : list (Row.row K)) : list (Agg.row K) :=
  sort_values (groupby_agg df).

(** ** Effects *)

(** What a run does, in order: what it writes on its two streams, the
    bar chart it draws ([ax.bar] with the scenarios, the means and the
    standard deviations as error bars; the bars stand at categories when
    the scenarios are text and at positions when they are numbers), the
    label it puts on each bar ([ax.text]), the file name it hands to
    [savefig], and the final [plt.show()].  The calls that only style
    the figure (axis labels, title, grid, ticks, background, layout) are
    left out. *)
Inductive stream : Type := stdout | stderr.

Inductive event : Type :=
| Write (f : stream) (text : string)
| Bar (x : list string) (height : list float) (yerr : list float)
| BarAt (x : list Z) (height : list float) (yerr : list float)
| Text (bar : nat) (y : float) (s : string)
| Savefig (fname : string)
| Show.

Definition nl : string := String (ascii_of_nat 10) EmptyString.
Definition plus_minus : string := String (ascii_of_nat 177) EmptyString.

(** [print(s)] writes [s] and a newline to standard output. *)
Definition print (s : string) : event := Write stdout (s ++ nl).

(** What a path holds: a CSV file that [read_csv] loads as a frame with
    the two columns, the scenarios being text or numbers; an image
    written by [savefig]; a directory; or anything else (a file that is
    no such CSV), on which [read_csv] or the aggregation raises.  A
    directory is looked up under its path with the final slash. *)
Inductive content : Type :=
| Table (df : DataFrame)
| NumberTable (df : NumberFrame)
| Image
| Directory
| Other.

Definition filesystem : Type := string -> option content.

Definition write_file (fs : filesystem) (name : string) (c : content) : filesystem :=
  fun p => if String.eqb p name then Some c else fs p.

(** The exceptions that escape the script. *)
Inductive exn : Type :=
| LoadError
| FormatNotSupported (format : string)
| NoSuchDirectory (fname : string)
| UnknownFormatCode.

(** The world a run starts in: its arguments, the files, and two facts
    about the installation: the image formats, besides png, that
    matplotlib can write, and the text of the traceback the interpreter
    prints for an exception. *)
Record world : Type := {
  argv : list string;
  files : filesystem;
  image_formats : list string;
  traceback : exn -> string
}.

(** How a run ends: it reaches the last line, it calls [sys.exit], or
    an exception escapes (the interpreter then exits with status 1). *)
Inductive outcome : Type :=
| Completed
| SysExit (code : Z)
| Raised (e : exn).

Definition exit_code (o : outcome) : Z :=
  match o with
  | Completed => 0
  | SysExit code => code
  | Raised _ => 1
  end.

Record run : Type := { trace : list event; result : outcome; files_after : filesystem }.

(** The interpreter reports an exception that escapes on standard
    error. *)
Definition uncaught (w : world) (e : exn) : event := Write stderr (traceback w e).

(** ** The script *)

(** Lines 9-11. *)
Definition csv_file (argv : list string) : string :=
  match argv with
  | _ :: a :: _ => a
  | _ => "results/results.csv"
  end.

(** Lines 30-43: the bars with their error bars, then a label on each. *)
Definition label {K : Type} (a : Agg.row K) : string :=
  format_f 0 0 (value (Agg.mean a)) ++ nl ++ "(n=" ++ digits (Z.of_nat (Agg.count a)) ++ ")".

Fixpoint labels {K : Type} (i : nat) (t : list (Agg.row K)) : list event :=
  match t with
  | [] => []
  | a :: t' => Text i (Agg.mean a) (label a) :: labels (S i) t'
  end.

Definition chart (t : list (Agg.row string)) : list event :=
  Bar (map Agg.scenario t) (map Agg.mean t) (map Agg.std t) :: labels 0 t.

Definition chart_at (t : list (Agg.row Z)) : list event :=
  BarAt (map Agg.scenario t) (map Agg.mean t) (map Agg.std t) :: labels 0 t.

(** Line 55: the labels of the ticks of the y axis,
    [lambda x, p: f'{int(x):,}'], on the value of a tick. *)

(** [int(x)]: the fraction is cut off, towards zero. *)
Definition int_of (x : Q) : Z := Z.quot (Qnum x) (Zpos (Qden x)).

(** [f'{n:,}'] for an integer. *)
Definition format_int (n : Z) : string :=
  (if (n <? 0)%Z then "-" else "") ++ group3 (digits (Z.abs n)).

Definition yaxis_formatter (x : Q) : string := format_int (int_of x).

(** The file [savefig] writes (line 65).  The call gives no [format],
    so the format is inferred from the extension of the name; a name
    without extension is saved in the default format, png, with [.png]
    appended to it; and a format that matplotlib cannot write raises
    [ValueError], before any file is opened. *)
Definition supported (formats : list string) (format : string) : bool :=
  String.eqb format "png" || existsb (String.eqb format) formats.

Definition savefig_target (formats : list string) (fname : string) : option string :=
  let format := extension fname in
  if String.eqb format "" then Some (Str.rstrip "." fname ++ ".png")
  else if supported formats (Str.lower format) then Some fname
  else None.

(** The file is then opened for writing, which raises
    [FileNotFoundError] when its directory does not exist.  The current
    directory and the root exist, and so does the directory of the input
    file, which has just been read. *)
Definition is_directory (w : world) (d : string) : bool :=
  String.eqb d "" || String.eqb d "/" || String.eqb d (dirname (csv_file (argv w))) ||
  match files w d with
  | Some Directory => true
  | _ => false
  end.

Inductive saved : Type :=
| Saved (target : string)
| Failed (e : exn).

Definition savefig (w : world) (fname : string) : saved :=
  match savefig_target (image_formats w) fname with
  | None => Failed (FormatNotSupported (Str.lower (extension fname)))
  | Some target =>
      if is_directory w (dirname target) then Saved target
      else Failed (NoSuchDirectory target)
  end.

(** Lines 69-74. *)
Definition banner : string := Str.repeat "=" 60.

Definition report_line (a : Agg.row string) : string :=
  format_s 20 (Agg.scenario a) ++ ": " ++ format_f 10 1 (value (Agg.mean a)) ++
  " " ++ plus_minus ++ " " ++ format_f 7 1 (value (Agg.std a)) ++
  " QPS (n=" ++ digits (Z.of_nat (Agg.count a)) ++ ")".

Definition report_head : list event :=
  [print (nl ++ banner); print "Throughput Statistics by Scenario"; print banner].

Definition report (t : list (Agg.row string)) : list event :=
  report_head ++ map (fun a => print (report_line a)) t ++ [print banner].

(** The whole script.  [os.path.exists] is the test of line 13; a path
    that exists but is no table makes line 18 or line 21 raise; the
    report is printed after the chart is saved, so it is not reached
    when [savefig] raises.  On a frame whose scenarios are numbers the
    format ['20s'] of line 73 raises [ValueError] at the first aggregate
    row, after the image is saved and the head of the report is
    printed. *)
Definition main `{SortValues} (w : world) : run :=
  let csv_file := csv_file (argv w) in
  match files w csv_file with
  | None =>
      {| trace := [print ("Error: CSV file not found: " ++ csv_file)];
         result := SysExit 1;
         files_after := files w |}
  | Some (Table df) =>
      let scenario_throughput := scenario_throughput df in
      let output_file := output_file csv_file in
      match savefig w output_file with
      | Saved target =>
          {| trace := chart scenario_throughput
                      ++ [Savefig output_file; print ("Chart saved to: " ++ output_file)]
                      ++ report scenario_throughput ++ [Show];
             result := Completed;
             files_after := write_file (files w) target Image |}
      | Failed e =>
          {| trace := chart scenario_throughput ++ [Savefig output_file; uncaught w e];
             result := Raised e;
             files_after := files w |}
      end
  | Some (NumberTable df) =>
      let scenario_throughput := scenario_throughput df in
      let output_file := output_file csv_file in
      match savefig w output_file with
      | Saved target =>
          match scenario_throughput with
          | [] =>
              {| trace := chart_at scenario_throughput
                          ++ [Savefig output_file; print ("Chart saved to: " ++ output_file)]
                          ++ report_head ++ [print banner; Show];
                 result := Completed;
                 files_after := write_file (files w) target Image |}
          | _ :: _ =>
              {| trace := chart_at scenario_throughput
                          ++ [Savefig output_file; print ("Chart saved to: " ++ output_file)]
                          ++ report_head ++ [uncaught w UnknownFormatCode];
                 result := Raised UnknownFormatCode;
                 files_after := write_file (files w) target Image |}
          end
      | Failed e =>
          {| trace := chart_at scenario_throughput ++ [Savefig output_file; uncaught w e];
             result := Raised e;
             files_after := files w |}
      end
  | Some _ =>
      {| trace := [uncaught w LoadError]; result := Raised LoadError; files_after := files w |}
  end.

(** * The notions of the specification *)

(** ** The statistics it names *)

(** The [QPS] cells of a scenario, in input order, and those of them
    that hold a number. *)
Definition values_of {K : Type} `{Key K} (s : K) (df : list (Row.row K)) : list float :=
  map Row.QPS (filter (in_group s) df).

Definition is_number (x : float) : bool := negb (is_nan x).

Definition samples_of {K : Type} `{Key K} (s : K) (df : list (Row.row K)) : list float :=
  filter is_number (values_of s df).







Definition present {K : Type} (r : Row.row K) : bool :=
  match Row.scenario r with
  | Some _ => true
  | None => false
  end.

(** A row that is counted: it has a scenario and its [QPS] is a
    number. *)
Definition observed {K : Type} (r : Row.row K) : bool :=
  present r && is_number (Row.QPS r).

(** ** Orders and contributions *)

(** [a] comes before [b] in [l]. *)
Definition before {A : Type} (a b : A) (l : list A) : Prop :=
  exists l1 l2 l3 : list A, l = (l1 ++ a :: l2 ++ b :: l3)%list.

(** Rows of equal mean keep the order the grouping gave them. *)
Definition ties_keep_order (S : SortValues) (df : DataFrame) : Prop :=
  forall a b, (Agg.mean a =? Agg.mean b)%float = true ->
    before a b (groupby_agg df) -> before a b (scenario_throughput df).

(** An input row contributes to the aggregate row of its scenario. *)
Definition contributes {K : Type} (r : Row.row K) (a : Agg.row K) : Prop :=
  Row.scenario r = Some (Agg.scenario a).

(** The second half of C2 as the specification words it: every input
    row contributes to exactly one aggregate row. *)
Definition every_row_in_one_group (S : SortValues) (df : DataFrame) : Prop :=
  forall r, In r df ->
    exists a, In a (scenario_throughput df) /\ contributes r a /\
      forall a', In a' (scenario_throughput df) -> contributes r a' -> a' = a.

(** A run reports [p] on the stream [f]. *)
Definition reports_on (f : stream) (p : string) (r : run) : Prop :=
  exists text, In (Write f text) (trace r) /\ Str.contains p text = true.

(** The image has been written over the input file. *)
Definition saved_over_input (w : world) (r : run) : Prop :=
  files_after r (csv_file (argv w)) = Some Image.

(** ** Notions for the further properties *)


(** The last character of a string. *)
Fixpoint last_char (s : string) : option ascii :=
  match s with
  | EmptyString => None
  | String c s' => match last_char s' with Some d => Some d | None => Some c end
  end.

(** [int(s)] for a decimal numeral with an optional minus sign. *)
Definition parse_int (s : string) : option Z :=
  option_map Z.of_int (DecimalString.NilZero.int_of_string s).

(** Only digits. *)
Fixpoint all_digits (s : string) : bool :=
  match s with
  | EmptyString => true
  | String c s' => (48 <=? nat_of_ascii c)%nat && (nat_of_ascii c <=? 57)%nat && all_digits s'
  end.

(** ** Inputs used as examples *)

(** The image formats of a matplotlib 3.11, png apart, and a traceback
    text. *)
Definition example_formats : list string :=
  ["eps"; "jpeg"; "jpg"; "pdf"; "pgf"; "ps"; "raw"; "rgba"; "svg"; "svgz";
   "tif"; "tiff"; "webp"; "gif"; "avif"].

Definition example_traceback (e : exn) : string :=
  "Traceback (most recent call last):" ++ nl.

(** A world with one file. *)
Definition one_file (args : list string) (path : string) (c : content) : world :=
  {| argv := args;
     files := fun p => if String.eqb p path then Some c else None;
     image_formats := example_formats;
     traceback := example_traceback |}.

Definition example_df : DataFrame :=
  [ {| Row.scenario := Some "A"; Row.QPS := 100 |};
    {| Row.scenario := Some "A"; Row.QPS := 120 |};
    {| Row.scenario := Some "B"; Row.QPS := 50 |} ].

Definition example_world : world :=
  one_file ["plot_throughput.py"; "r.csv"] "r.csv" (Table example_df).

Definition tie_df : DataFrame :=
  [ {| Row.scenario := Some "A"; Row.QPS := 1 |};
    {| Row.scenario := Some "B"; Row.QPS := 1 |} ].

Definition unlabelled_df : DataFrame :=
  [ {| Row.scenario := None; Row.QPS := 5 |} ].





Definition no_file_world : world :=
  {| argv := ["plot_throughput.py"];
     files := fun _ => None;
     image_formats := example_formats;
     traceback := example_traceback |}.

Definition upper_case_world : world :=
  one_file ["plot_throughput.py"; "DATA.CSV"] "DATA.CSV" (Table example_df).

Definition png_named_world : world :=
  one_file ["plot_throughput.py"; "table.png"] "table.png" (Table example_df).

Definition double_csv_world : world :=
  one_file ["plot_throughput.py"; "a.csv.csv"] "a.csv.csv" (Table example_df).

(** An input file in a directory whose name contains [.csv]. *)
Definition nested_world : world :=
  one_file ["plot_throughput.py"; "a.csv.d/b.csv"] "a.csv.d/b.csv" (Table example_df).


(** * Facts *)

(** ** Insertion sort *)

Section InsertionSort.
Context {A : Type} (le : A -> A -> bool) (R : A -> A -> Prop).
Hypothesis le_R : forall x y, le x y = true -> R x y.
Hypothesis le_total : forall x y, le x y = false -> R y x.
Hypothesis R_trans : forall x y z, R x y -> R y z -> R x z.

Lemma insert_by_perm (x : A) (l : list A) : Permutation (x :: l) (insert_by le x l).
Proof.
  induction l as [|y l IH]; simpl; [reflexivity|].
  destruct (le x y); [reflexivity|].
  rewrite perm_swap. now apply perm_skip.
Qed.

Lemma isort_perm (l : list A) : Permutation l (isort le l).
Proof.
  induction l as [|x l IH]; simpl; [constructor|].
  rewrite <- insert_by_perm. now apply perm_skip.
Qed.

Lemma insert_by_sorted (x : A) (l : list A) :
  StronglySorted R l -> StronglySorted R (insert_by le x l).
Proof.
  induction 1 as [|y l Hl IH Hy]; simpl.
  - repeat constructor.
  - destruct (le x y) eqn:E.
    + constructor; [now constructor|].
      apply le_R in E. constructor; [exact E|].
      rewrite Forall_forall in *. eauto.
    + constructor; [exact IH|].
      rewrite <- insert_by_perm. constructor; auto.
Qed.

Lemma isort_sorted (l : list A) : StronglySorted R (isort le l).
Proof.
  induction l as [|x l IH]; simpl; [constructor|].
  now apply insert_by_sorted.
Qed.
End InsertionSort.

(** ** The order of the floats *)

(** The place of a float on the number line: its sign class, then its
    exponent and its mantissa. *)
Definition rank (f : spec_float) : Z * (Z * Z) :=
  match f with
  | S754_zero _ => (0, (0, 0))%Z
  | S754_infinity s => ((if s then -2 else 2), (0, 0))%Z
  | S754_nan => (3, (0, 0))%Z
  | S754_finite s m e => if s then (-1, (- e, - Zpos m))%Z else (1, (e, Zpos m))%Z
  end.

Definition rank_le (p q : Z * (Z * Z)) : Prop :=
  (fst p < fst q \/ (fst p = fst q /\
     (fst (snd p) < fst (snd q) \/
      (fst (snd p) = fst (snd q) /\ snd (snd p) <= snd (snd q)))))%Z.

Lemma compare_cont_Eq (m1 m2 : positive) :
  PosDef.Pos.compare_cont Eq m1 m2 = (Zpos m1 ?= Zpos m2)%Z.
Proof. reflexivity. Qed.

Lemma SFleb_rank (f g : spec_float) :
  SFleb f g = true <-> f <> S754_nan /\ g <> S754_nan /\ rank_le (rank f) (rank g).
Proof.
  unfold SFleb, rank_le.
  destruct f as [s1|s1| |s1 m1 e1], g as [s2|s2| |s2 m2 e2]; simpl;
    try destruct s1; try destruct s2; simpl;
    try (split; [intros _; repeat split; try discriminate; lia
                |intros [A [B C]]; try congruence; try reflexivity; try lia]);
    try (split; [discriminate|intros [A [B C]]; try congruence; lia]).
  all: rewrite ?compare_cont_Eq.
  all: destruct (Z.compare_spec e1 e2); destruct (Z.compare_spec (Zpos m1) (Zpos m2)); simpl;
    split; try discriminate; try (intros _; repeat split; try discriminate; lia);
    try (intros [A [B C]]; try reflexivity; lia).
Qed.

Lemma SFeqb_refl (f : spec_float) : SFeqb f f = negb match f with S754_nan => true | _ => false end.
Proof.
  unfold SFeqb. destruct f as [s|s| |s m e]; try destruct s; simpl; try reflexivity;
    rewrite Z.compare_refl, compare_cont_Eq, Z.compare_refl; reflexivity.
Qed.

Lemma is_nan_spec (x : float) : is_nan x = true <-> Prim2SF x = S754_nan.
Proof.
  unfold is_nan. rewrite eqb_spec, SFeqb_refl, negb_involutive.
  destruct (Prim2SF x); split; congruence.
Qed.

Lemma is_nan_false (x : float) : is_nan x = false <-> Prim2SF x <> S754_nan.
Proof.
  rewrite <- is_nan_spec. destruct (is_nan x); split; congruence.
Qed.

(** There is one NaN. *)
Lemma is_nan_nan (x : float) : is_nan x = true <-> x = nan.
Proof.
  rewrite is_nan_spec. split.
  - intros E. rewrite <- (SF2Prim_Prim2SF x), E. reflexivity.
  - intros ->. reflexivity.
Qed.

Lemma leb_rank (x y : float) :
  (x <=? y)%float = true <->
  is_nan x = false /\ is_nan y = false /\ rank_le (rank (Prim2SF x)) (rank (Prim2SF y)).
Proof. rewrite leb_spec, SFleb_rank, !is_nan_false. reflexivity. Qed.

Lemma mean_geb_total {K : Type} (a b : Agg.row K) : mean_geb a b = false -> mean_ge b a.
Proof.
  unfold mean_ge, mean_geb. intros E.
  apply orb_false_elim in E as [Nb E]. rewrite Nb. cbn [negb andb].
  destruct (is_nan (Agg.mean a)) eqn:Na; [reflexivity|]. cbn [negb andb orb] in *.
  apply leb_rank. split; [exact Na|]. split; [exact Nb|].
  destruct (Agg.mean b <=? Agg.mean a)%float eqn:L; [discriminate E|].
  assert (T : ~ rank_le (rank (Prim2SF (Agg.mean b))) (rank (Prim2SF (Agg.mean a)))).
  { intros R. assert (X : (Agg.mean b <=? Agg.mean a)%float = true)
      by (apply leb_rank; auto). congruence. }
  unfold rank_le in *. lia.
Qed.

Lemma mean_ge_trans {K : Type} (a b c : Agg.row K) : mean_ge a b -> mean_ge b c -> mean_ge a c.
Proof.
  unfold mean_ge, mean_geb. intros A B.
  destruct (is_nan (Agg.mean c)) eqn:Nc; [reflexivity|]. cbn [orb] in *.
  apply andb_prop in B as [Nb B]. apply negb_true_iff in Nb.
  rewrite Nb in A. cbn [orb] in A. apply andb_prop in A as [Na A]. rewrite Na. cbn [andb].
  apply leb_rank in A as [_ [_ A]]. apply leb_rank in B as [_ [_ B]].
  apply leb_rank. apply negb_true_iff in Na. repeat split; auto.
  unfold rank_le in *. lia.
Qed.

(** A sort that keeps the promise of [sort_values]: the insertion sort,
    which is stable. *)
#[export] Instance stable_sort : SortValues := {|
  sort_values := fun K => isort mean_geb;
  sort_values_perm := fun K => isort_perm mean_geb;
  sort_values_sorted := fun K =>
    isort_sorted mean_geb mean_ge (fun a b E => E) mean_geb_total mean_ge_trans
|}.

(** ** Facts about strings *)

Lemma append_assoc (x y z : string) : (x ++ y) ++ z = x ++ y ++ z.
Proof. induction x as [|a x IH]; simpl; [reflexivity|now rewrite IH]. Qed.

Lemma prefix_append (x y : string) : prefix x (x ++ y) = true.
Proof.
  induction x as [|a x IH]; simpl; [now destruct y|].
  destruct (ascii_dec a a); [exact IH|congruence].
Qed.

Lemma prefix_cons (a b : ascii) (x y : string) :
  prefix (String a x) (String b y) = Ascii.eqb a b && prefix x y.
Proof.
  simpl. destruct (ascii_dec a b) as [->|N].
  - now rewrite Ascii.eqb_refl.
  - apply Ascii.eqb_neq in N. now rewrite N.
Qed.

(** A pattern whose first character does not come back in it cannot
    start inside a piece and end inside the occurrence that follows. *)
Lemma prefix_stops (o : ascii) (os seg rest : string) :
  Str.has_char o os = false ->
  prefix os (seg ++ String o rest) = true -> prefix os seg = true.
Proof.
  revert seg. induction os as [|a os IH]; intros seg H P.
  - now destruct seg.
  - simpl in H. apply orb_false_elim in H as [Ha Hos].
    destruct seg as [|b seg].
    + simpl append in P. rewrite prefix_cons, Ha in P. discriminate.
    + simpl append in P. rewrite prefix_cons in *.
      apply andb_prop in P as [-> P]. simpl. now apply IH.
Qed.

Lemma replace_skip (old new x rest : string) :
  Str.replace_from old new (length x) (x ++ rest) = Str.replace_from old new 0 rest.
Proof. induction x as [|a x IH]; simpl; [reflexivity|exact IH]. Qed.

Lemma replace_absent (old new s : string) :
  Str.contains old s = false -> Str.replace old new s = s.
Proof.
  unfold Str.replace. induction s as [|c s IH]; simpl; intros H.
  - apply orb_false_elim in H as [H _]. simpl in H. now rewrite H.
  - apply orb_false_elim in H as [H1 H2]. simpl in H1. rewrite H1.
    now rewrite IH.
Qed.

Lemma replace_piece (o : ascii) (os new seg rest : string) :
  Str.has_char o os = false ->
  Str.contains (String o os) seg = false ->
  Str.replace (String o os) new (seg ++ String o os ++ rest)
  = seg ++ new ++ Str.replace (String o os) new rest.
Proof.
  intros Ho. unfold Str.replace. induction seg as [|c seg IH]; intros H.
  - change ("" ++ String o os ++ rest) with (String o (os ++ rest)).
    cbn [Str.replace_from].
    change (String o (os ++ rest)) with (String o os ++ rest).
    rewrite prefix_append. now rewrite replace_skip.
  - cbn [Str.contains] in H. apply orb_false_elim in H as [H1 H2].
    change (String c seg ++ String o os ++ rest)
      with (String c (seg ++ String o (os ++ rest))).
    cbn [Str.replace_from].
    destruct (prefix (String o os) (String c (seg ++ String o (os ++ rest)))) eqn:P.
    + exfalso. rewrite prefix_cons in *.
      apply andb_prop in P as [Pc P]. rewrite Pc in H1. simpl in H1.
      apply prefix_stops in P; [congruence|exact Ho].
    + simpl. f_equal. now apply IH.
Qed.

(** Replacing the pattern in pieces joined by it joins the pieces by the
    replacement. *)
Lemma replace_join (o : ascii) (os new s0 : string) (l : list string) :
  Str.has_char o os = false ->
  Forall (fun s => Str.contains (String o os) s = false) (s0 :: l) ->
  Str.replace (String o os) new (Str.join (String o os) s0 l) = Str.join new s0 l.
Proof.
  intros Ho. revert s0. induction l as [|s1 l IH]; intros s0 H; cbn [Str.join].
  - apply replace_absent. now inversion H.
  - inversion H as [|? ? H0 Hl]; subst.
    rewrite replace_piece by assumption. now rewrite IH.
Qed.

Lemma has_char_append (c : ascii) (x y : string) :
  Str.has_char c (x ++ y) = Str.has_char c x || Str.has_char c y.
Proof.
  induction x as [|a x IH]; simpl; [reflexivity|].
  now rewrite IH, orb_assoc.
Qed.

Lemma dirname_append (x y : string) :
  Str.has_char "/" y = false -> dirname (x ++ y) = dirname x.
Proof.
  intros Hy. induction x as [|a x IH].
  - destruct y as [|b y]; [reflexivity|]. simpl append. unfold dirname. now rewrite Hy.
  - change (String a x ++ y) with (String a (x ++ y)). cbn [dirname].
    change (String a (x ++ y)) with (String a x ++ y).
    rewrite has_char_append, Hy, orb_false_r.
    destruct (Str.has_char "/" (String a x)); [now rewrite IH|reflexivity].
Qed.

Lemma tail_after_append (c : ascii) (x y : string) :
  Str.tail_after c (x ++ y)
  = match Str.tail_after c y with
    | Some t => Some t
    | None => option_map (fun t => t ++ y) (Str.tail_after c x)
    end.
Proof.
  induction x as [|a x IH]; simpl.
  - now destruct (Str.tail_after c y).
  - rewrite IH. destruct (Str.tail_after c y); [reflexivity|].
    destruct (Str.tail_after c x); simpl; [reflexivity|].
    now destruct (Ascii.eqb a c).
Qed.

Lemma lstrip_keeps_suffix (c b : ascii) (x y : string) :
  Ascii.eqb b c = false ->
  exists z, Str.lstrip c (x ++ String b y) = z ++ String b y.
Proof.
  intros Hb. induction x as [|a x [z IH]]; simpl.
  - rewrite Hb. now exists "".
  - destruct (Ascii.eqb a c); [now exists z|].
    now exists (String a x).
Qed.

(** The derived name of a [.csv] file always carries the extension
    [png], so [savefig] writes that very file. *)
Lemma extension_png (stem : string) : extension (stem ++ "_throughput.png") = "png".
Proof.
  unfold extension, basename.
  rewrite tail_after_append. simpl Str.tail_after at 1. cbv iota.
  assert (E : exists z, Str.lstrip "."
              match option_map (fun t => t ++ "_throughput.png") (Str.tail_after "/" stem) with
              | Some t => t
              | None => stem ++ "_throughput.png"
              end = z ++ "_throughput.png").
  { destruct (Str.tail_after "/" stem); simpl option_map;
      now apply lstrip_keeps_suffix. }
  destruct E as [z ->]. rewrite tail_after_append. reflexivity.
Qed.

Lemma savefig_target_png (formats : list string) (stem : string) :
  savefig_target formats (stem ++ "_throughput.png") = Some (stem ++ "_throughput.png").
Proof. unfold savefig_target. now rewrite extension_png. Qed.

Lemma prefix_mono (x s t : string) : prefix x s = true -> prefix x (s ++ t) = true.
Proof.
  revert s. induction x as [|a x IH]; intros s H.
  - now destruct (s ++ t).
  - destruct s as [|b s]; [discriminate H|].
    simpl append. rewrite prefix_cons in *.
    apply andb_prop in H as [-> H]. now rewrite IH.
Qed.

Lemma prefix_split (x s : string) : prefix x s = true -> exists rest, s = x ++ rest.
Proof.
  revert s. induction x as [|a x IH]; intros s H.
  - now exists s.
  - destruct s as [|b s]; [discriminate H|].
    rewrite prefix_cons in H. apply andb_prop in H as [E H].
    apply Ascii.eqb_eq in E as ->. destruct (IH s H) as [rest ->]. now exists rest.
Qed.

(** The text before the first occurrence of a pattern is free of it. *)
Lemma first_occurrence (o : ascii) (os p : string) :
  Str.contains (String o os) p = true ->
  exists seg rest, p = seg ++ String o os ++ rest /\ Str.contains (String o os) seg = false.
Proof.
  induction p as [|c p IH]; intros H; [discriminate H|].
  cbn [Str.contains] in H.
  destruct (prefix (String o os) (String c p)) eqn:P.
  - destruct (prefix_split _ _ P) as [rest E]. now exists "", rest.
  - destruct (IH H) as [seg [rest [-> N]]]. exists (String c seg), rest.
    split; [reflexivity|]. cbn [Str.contains]. rewrite N, orb_false_r.
    destruct (prefix (String o os) (String c seg)) eqn:Q; [|reflexivity].
    apply (prefix_mono _ _ (String o os ++ rest)) in Q.
    simpl append in Q. simpl append in P. congruence.
Qed.

Lemma length_append (x y : string) : length (x ++ y) = (length x + length y)%nat.
Proof. induction x as [|a x IH]; simpl; [reflexivity|now rewrite IH]. Qed.

(** Every string is pieces free of the pattern, joined by the pattern. *)
Lemma pieces (o : ascii) (os p : string) :
  exists s0 l, p = Str.join (String o os) s0 l /\
    Forall (fun s => Str.contains (String o os) s = false) (s0 :: l).
Proof.
  remember (length p) as n eqn:L.
  revert p L. induction n as [n IH] using lt_wf_ind. intros p L.
  destruct (Str.contains (String o os) p) eqn:C.
  - destruct (first_occurrence o os p C) as [seg [rest [E N]]].
    destruct (IH (length rest)) with (p := rest) as [s1 [l [R A]]]; [|reflexivity|].
    + subst. rewrite !length_append. simpl. lia.
    + exists seg, (s1 :: l). split; [now rewrite E, R|]. now constructor.
  - exists p, []. split; [reflexivity|]. now constructor.
Qed.

(** ** The walk over the rows *)

Lemma scan_values {K : Type} `{Key K} (k : K) (df : list (Row.row K)) :
  scan k df = fold_left observe (values_of k df) accum0.
Proof.
  unfold scan, values_of. generalize (@accum0 float binary64).
  induction df as [|r df IH]; intros a; simpl; [reflexivity|].
  destruct (in_group k r); simpl; apply IH.
Qed.

Lemma observe_nan (a : accum float) (x : float) : is_number x = false -> observe a x = a.
Proof.
  unfold is_number, observe. cbn [fisnan binary64]. intros E.
  apply negb_false_iff in E. now rewrite E.
Qed.

Lemma observe_number (a : accum float) (x : float) :
  is_number x = true -> nobs (observe a x) = S (nobs a).
Proof.
  unfold is_number, observe. cbn [fisnan binary64]. intros E.
  apply negb_true_iff in E. now rewrite E.
Qed.


Lemma observe_nobs (xs : list float) (a : accum float) :
  nobs (fold_left observe xs a) = (nobs a + List.length (filter is_number xs))%nat.
Proof.
  revert a. induction xs as [|x xs IH]; intros a; cbn [fold_left filter]; [simpl; lia|].
  rewrite IH. destruct (is_number x) eqn:E.
  - rewrite (observe_number a x E). simpl. lia.
  - now rewrite (observe_nan a x E).
Qed.

Lemma scan_nobs {K : Type} `{Key K} (k : K) (df : list (Row.row K)) :
  nobs (scan k df) = List.length (samples_of k df).
Proof. rewrite scan_values, observe_nobs. reflexivity. Qed.

Lemma finish_count {K : Type} `{Key K} (k : K) (df : list (Row.row K)) :
  Agg.count (finish k (scan k df)) = List.length (samples_of k df).
Proof. apply scan_nobs. Qed.

(** ** The same formulas over the rationals are the textbook statistics *)











(** ** The keys of the table *)

Section Keys.
Context {K : Type} `{Key K}.

Lemma key_eqb_refl (k : K) : key_eqb k k = true.
Proof. now apply key_eqb_eq. Qed.

Lemma keys_In (k : K) (df : list (Row.row K)) :
  In k (keys df) <-> In (Some k) (map Row.scenario df).
Proof.
  unfold keys. rewrite in_flat_map, in_map_iff. split.
  - intros [r [Hr Hk]]. exists r. split; [|exact Hr].
    destruct (Row.scenario r); simpl in Hk; [|contradiction].
    destruct Hk as [->|[]]. reflexivity.
  - intros [r [Hk Hr]]. exists r. split; [exact Hr|]. rewrite Hk. now left.
Qed.

Lemma uniques_In (k : K) (df : list (Row.row K)) : In k (uniques df) <-> In k (keys df).
Proof.
  unfold uniques. rewrite <- (nodup_In key_dec (keys df) k).
  split; apply Permutation_in; [symmetry|]; apply isort_perm.
Qed.

Lemma uniques_NoDup (df : list (Row.row K)) : NoDup (uniques df).
Proof.
  unfold uniques. eapply Permutation_NoDup; [apply isort_perm|apply NoDup_nodup].
Qed.

Lemma groupby_agg_scenarios (df : list (Row.row K)) :
  map Agg.scenario (groupby_agg df) = uniques df.
Proof.
  unfold groupby_agg. rewrite map_map. simpl. apply map_id.
Qed.

Lemma groupby_agg_In (a : Agg.row K) (df : list (Row.row K)) :
  In a (groupby_agg df) <->
  In (Agg.scenario a) (keys df) /\ a = finish (Agg.scenario a) (scan (Agg.scenario a) df).
Proof.
  unfold groupby_agg. rewrite in_map_iff. split.
  - intros [k [<- Hk]]. simpl. now rewrite <- uniques_In.
  - intros [Hk Ha]. exists (Agg.scenario a). now rewrite uniques_In.
Qed.

Lemma groupby_agg_determined (df : list (Row.row K)) (a a' : Agg.row K) :
  In a (groupby_agg df) -> In a' (groupby_agg df) ->
  Agg.scenario a = Agg.scenario a' -> a = a'.
Proof.
  intros Ha Ha' E. apply groupby_agg_In in Ha as [_ Ha], Ha' as [_ Ha'].
  rewrite Ha, Ha'. now rewrite E.
Qed.



(** ** Rows without a scenario *)

Lemma keys_present (df : list (Row.row K)) : keys (filter present df) = keys df.
Proof.
  unfold keys, present. induction df as [|r df IH]; [reflexivity|]. simpl.
  destruct (Row.scenario r) eqn:E; simpl; rewrite ?E, IH; reflexivity.
Qed.

Lemma filter_group_present (k : K) (df : list (Row.row K)) :
  filter (in_group k) (filter present df) = filter (in_group k) df.
Proof.
  unfold in_group, present. induction df as [|r df IH]; [reflexivity|]. simpl.
  destruct (Row.scenario r) eqn:E; simpl; rewrite ?E, IH; reflexivity.
Qed.

Lemma groupby_agg_present (df : list (Row.row K)) :
  groupby_agg (filter present df) = groupby_agg df.
Proof.
  unfold groupby_agg, uniques. rewrite keys_present. apply map_ext. intros k.
  now rewrite !scan_values; unfold values_of; rewrite filter_group_present.
Qed.

(** A row without a scenario can be taken out of the frame: the table
    stays the same. *)
Lemma groupby_agg_unlabelled (df1 df2 : list (Row.row K)) (r : Row.row K) :
  Row.scenario r = None ->
  groupby_agg (df1 ++ r :: df2)%list = groupby_agg (df1 ++ df2)%list.
Proof.
  intros E. rewrite <- (groupby_agg_present (df1 ++ r :: df2)%list).
  rewrite <- (groupby_agg_present (df1 ++ df2)%list).
  rewrite !filter_app. cbn [filter]. unfold present at 2. now rewrite E.
Qed.

(** ** Every observed row is counted once *)

Lemma list_sum_perm (l l' : list nat) : Permutation l l' -> list_sum l = list_sum l'.
Proof. induction 1; simpl; lia. Qed.

Lemma list_sum_zero {A : Type} (ks : list A) : list_sum (map (fun _ => 0%nat) ks) = 0%nat.
Proof. induction ks as [|k ks IH]; [reflexivity|exact IH]. Qed.

Lemma count_one (s : K) (ks : list K) :
  NoDup ks -> In s ks ->
  list_sum (map (fun k => if key_eqb s k then 1 else 0)%nat ks) = 1%nat.
Proof.
  induction 1 as [|k ks Hk Hks IH]; [contradiction|]. intros [->|Hin]; simpl.
  - rewrite key_eqb_refl.
    assert (Z : list_sum (map (fun k => if key_eqb s k then 1 else 0)%nat ks) = 0%nat).
    { clear IH Hks. induction ks as [|k ks IH]; [reflexivity|]. simpl.
      destruct (key_eqb s k) eqn:E.
      - apply key_eqb_eq in E as ->. exfalso. apply Hk. now left.
      - apply IH. intros I. apply Hk. now right. }
    now rewrite Z.
  - destruct (key_eqb s k) eqn:E; [apply key_eqb_eq in E as ->; contradiction|].
    now apply IH.
Qed.

(** The rows of the groups that pass a test are the labelled rows that
    pass it. *)
Lemma group_sizes_sum (f : Row.row K -> bool) (ks : list K) (df : list (Row.row K)) :
  NoDup ks -> incl (keys df) ks ->
  list_sum (map (fun k => List.length (filter f (filter (in_group k) df))) ks)
  = List.length (filter (fun r => present r && f r) df).
Proof.
  intros Hks. induction df as [|r df IH]; intros Hin.
  - cbn [filter List.length]. apply list_sum_zero.
  - assert (Hin' : incl (keys df) ks).
    { intros k Hk. apply Hin. unfold keys in *. simpl. apply in_or_app. now right. }
    specialize (IH Hin').
    transitivity
      (list_sum (map (fun k => if in_group k r && f r then 1 else 0)%nat ks)
       + List.length (filter (fun r => present r && f r) df))%nat.
    + rewrite <- IH. clear. induction ks as [|k ks IHk]; [reflexivity|].
      cbn [map list_sum fold_right filter] in *. unfold list_sum in *.
      destruct (in_group k r); cbn [andb filter]; [destruct (f r)|]; cbn [List.length]; lia.
    + cbn [filter]. unfold in_group, present.
      destruct (Row.scenario r) as [s|] eqn:E; cbn [andb].
      * destruct (f r).
        -- rewrite (map_ext _ (fun k => if key_eqb s k then 1 else 0)%nat)
             by (intros k; now rewrite andb_true_r).
           rewrite (count_one s ks Hks); [reflexivity|].
           apply Hin. unfold keys. simpl. rewrite E. now left.
        -- rewrite (map_ext _ (fun _ => 0%nat)) by (intros k; now rewrite andb_false_r).
           now rewrite list_sum_zero.
      * now rewrite list_sum_zero.
Qed.

Lemma samples_length (k : K) (df : list (Row.row K)) :
  List.length (samples_of k df)
  = List.length (filter (fun r => is_number (Row.QPS r)) (filter (in_group k) df)).
Proof.
  unfold samples_of, values_of. induction (filter (in_group k) df) as [|r l IH]; [reflexivity|].
  cbn [map filter]. destruct (is_number (Row.QPS r)); cbn [List.length]; now rewrite IH.
Qed.

Lemma groupby_agg_counts (df : list (Row.row K)) :
  list_sum (map Agg.count (groupby_agg df)) = List.length (filter observed df).
Proof.
  unfold groupby_agg. rewrite map_map.
  change (filter observed df)
    with (filter (fun r => present r && (fun r => is_number (Row.QPS r)) r) df).
  rewrite <- (group_sizes_sum _ (uniques df) df).
  - f_equal. apply map_ext. intros k. rewrite finish_count. apply samples_length.
  - apply uniques_NoDup.
  - intros k. apply uniques_In.
Qed.

(** ** The sorted table *)

Context `{SortValues}.

Lemma scenario_throughput_perm (df : list (Row.row K)) :
  Permutation (groupby_agg df) (scenario_throughput df).
Proof. apply sort_values_perm. Qed.

Lemma scenario_throughput_In (a : Agg.row K) (df : list (Row.row K)) :
  In a (scenario_throughput df) <-> In a (groupby_agg df).
Proof.
  unfold scenario_throughput. split; apply Permutation_in;
    [symmetry|]; apply sort_values_perm.
Qed.

Lemma scenario_throughput_counts (df : list (Row.row K)) :
  list_sum (map Agg.count (scenario_throughput df)) = List.length (filter observed df).
Proof.
  rewrite <- groupby_agg_counts. symmetry. apply list_sum_perm.
  apply Permutation_map, sort_values_perm.
Qed.

Lemma scenario_throughput_present (df : list (Row.row K)) :
  scenario_throughput (filter present df) = scenario_throughput df.
Proof. unfold scenario_throughput. now rewrite groupby_agg_present. Qed.




End Keys.

(** ** Runs of the script *)

Lemma main_missing `{SortValues} (w : world) :
  files w (csv_file (argv w)) = None ->
  main w = {| trace := [print ("Error: CSV file not found: " ++ csv_file (argv w))];
              result := SysExit 1;
              files_after := files w |}.
Proof. intros E. unfold main. now rewrite E. Qed.

Lemma main_saved `{SortValues} (w : world) (df : DataFrame) (target : string) :
  files w (csv_file (argv w)) = Some (Table df) ->
  savefig w (output_file (csv_file (argv w))) = Saved target ->
  main w = {| trace := chart (scenario_throughput df)
                       ++ [Savefig (output_file (csv_file (argv w)));
                           print ("Chart saved to: " ++ output_file (csv_file (argv w)))]
                       ++ report (scenario_throughput df) ++ [Show];
              result := Completed;
              files_after := write_file (files w) target Image |}.
Proof. intros E T. unfold main. now rewrite E, T. Qed.

Lemma main_not_saved `{SortValues} (w : world) (df : DataFrame) (e : exn) :
  files w (csv_file (argv w)) = Some (Table df) ->
  savefig w (output_file (csv_file (argv w))) = Failed e ->
  main w = {| trace := chart (scenario_throughput df)
                       ++ [Savefig (output_file (csv_file (argv w))); uncaught w e];
              result := Raised e;
              files_after := files w |}.
Proof. intros E T. unfold main. now rewrite E, T. Qed.

(** The format is looked at first, the directory second. *)
Lemma savefig_saved (w : world) (fname target : string) :
  savefig w fname = Saved target <->
  savefig_target (image_formats w) fname = Some target /\
  is_directory w (dirname target) = true.
Proof.
  unfold savefig. destruct (savefig_target (image_formats w) fname) as [t|].
  - destruct (is_directory w (dirname t)) eqn:D; split.
    + intros E. injection E as <-. now split.
    + intros [E _]. now injection E as <-.
    + discriminate.
    + intros [E D']. injection E as <-. congruence.
  - split; [discriminate|]. intros [E _]. discriminate E.
Qed.

Lemma savefig_failed (w : world) (fname : string) (e : exn) :
  savefig w fname = Failed e ->
  (savefig_target (image_formats w) fname = None /\
   e = FormatNotSupported (Str.lower (extension fname))) \/
  (exists target, savefig_target (image_formats w) fname = Some target /\
     is_directory w (dirname target) = false /\ e = NoSuchDirectory target).
Proof.
  unfold savefig. destruct (savefig_target (image_formats w) fname) as [t|].
  - destruct (is_directory w (dirname t)) eqn:D; [discriminate|].
    intros E. injection E as <-. right. now exists t.
  - intros E. injection E as <-. now left.
Qed.

(** A file next to the input file can be written. *)
Lemma is_directory_sibling (w : world) (target : string) :
  dirname target = dirname (csv_file (argv w)) -> is_directory w (dirname target) = true.
Proof.
  intros E. unfold is_directory. rewrite E, String.eqb_refl.
  now rewrite orb_true_r.
Qed.

Lemma contains_prefix (p s : string) : prefix p s = true -> Str.contains p s = true.
Proof. intros H. destruct s; cbn [Str.contains]; now rewrite H. Qed.

Lemma contains_middle (p x y : string) : Str.contains p (x ++ p ++ y) = true.
Proof.
  induction x as [|a x IH].
  - change ("" ++ p ++ y) with (p ++ y). apply contains_prefix, prefix_append.
  - simpl append. cbn [Str.contains]. rewrite IH. apply orb_true_r.
Qed.

Lemma output_file_suffix (stem : string) :
  Str.contains ".csv" stem = false ->
  output_file (stem ++ ".csv") = stem ++ "_throughput.png".
Proof.
  intros H. exact (replace_piece "." "csv" "_throughput.png" stem "" eq_refl H).
Qed.

Lemma length_repeat (c : ascii) (n : nat) : length (Str.repeat c n) = n.
Proof. induction n as [|n IH]; simpl; [reflexivity|now rewrite IH]. Qed.

Lemma length_ljust (w : nat) (s : string) : length (Str.ljust w s) = Nat.max w (length s).
Proof. unfold Str.ljust. rewrite length_append, length_repeat. lia. Qed.

Lemma length_rjust (w : nat) (s : string) : length (Str.rjust w s) = Nat.max w (length s).
Proof. unfold Str.rjust. rewrite length_append, length_repeat. lia. Qed.

(** ** Sorted rearrangements *)

(** Where the order is antisymmetric, a list has one sorted
    rearrangement. *)
Lemma sorted_perm_unique {A : Type} (R : A -> A -> Prop) (P : A -> Prop) :
  (forall x y, P x -> P y -> R x y -> R y x -> x = y) ->
  forall l1 l2, Forall P l1 -> StronglySorted R l1 -> StronglySorted R l2 ->
    Permutation l1 l2 -> l1 = l2.
Proof.
  intros anti. induction l1 as [|x l1 IH]; intros l2 HP S1 S2 Pm.
  - now apply Permutation_nil in Pm.
  - destruct l2 as [|y l2]; [apply Permutation_sym, Permutation_nil in Pm; discriminate|].
    inversion S1 as [|? ? S1' F1]; inversion S2 as [|? ? S2' F2]; subst.
    inversion HP as [|? ? Px HP']; subst.
    assert (Hx : In x (y :: l2)) by (eapply Permutation_in; [exact Pm|now left]).
    assert (Hy : In y (x :: l1))
      by (eapply Permutation_in; [symmetry; exact Pm|now left]).
    assert (E : x = y).
    { destruct Hx as [Hx|Hx]; [now symmetry|]. destruct Hy as [Hy|Hy]; [exact Hy|].
      rewrite Forall_forall in F1, F2, HP'. apply anti; auto. }
    subst y. f_equal. apply IH; auto. eapply Permutation_cons_inv; eauto.
Qed.

Lemma StronglySorted_map {A B : Type} (f : A -> B) (R : A -> A -> Prop)
    (R' : B -> B -> Prop) (l : list A) :
  (forall a b, R a b -> R' (f a) (f b)) ->
  StronglySorted R l -> StronglySorted R' (map f l).
Proof.
  intros HR. induction 1 as [|a l Hl IH Ha]; simpl; constructor; [exact IH|].
  rewrite Forall_forall in *. intros b Hb.
  apply in_map_iff in Hb as [c [<- Hc]]. auto.
Qed.

(** ** The rounding of the ['f'] format *)

(** The integer the format prints is nearest to the scaled number: it
    is off by one half of the last digit at most. *)
Lemma round_scaled_nearest (p : nat) (x : Q) :
  (2 * Z.abs (round_scaled p x * Zpos (Qden x) - Z.abs (Qnum x) * 10 ^ Z.of_nat p)
   <= Zpos (Qden x))%Z.
Proof.
  unfold round_scaled.
  set (n := (Z.abs (Qnum x) * 10 ^ Z.of_nat p)%Z).
  set (d := Zpos (Qden x)).
  assert (Hd : (0 < d)%Z) by reflexivity.
  pose proof (Z.div_mod n d ltac:(lia)) as E.
  pose proof (Z.mod_pos_bound n d Hd) as B.
  unfold half_even.
  destruct (Z.compare_spec (2 * (n mod d)) d) as [C|C|C];
    [destruct (Z.even (n / d))| |]; nia.
Qed.


(** ** The model on concrete inputs *)

Example replace_leftmost : Str.replace "aa" "b" "aaaaa" = "bba".
Proof. reflexivity. Qed.

Example replace_empty_pattern : Str.replace "" "-" "abc" = "-a-b-c-".
Proof. reflexivity. Qed.

Example output_file_default :
  output_file (csv_file ["plot_throughput.py"]) = "results/results_throughput.png".
Proof. reflexivity. Qed.

Example extension_cases :
  map extension ["a/b.c/d"; ".bashrc"; "..a.b"; "a.."; "x.tar.GZ"]
  = [""; ""; "b"; ""; "GZ"].
Proof. reflexivity. Qed.

Example savefig_cases :
  map (savefig_target example_formats) ["plot"; "plot."; "data.txt"; "x.PNG"; "x.gif"]
  = [Some "plot.png"; Some "plot.png"; None; Some "x.PNG"; Some "x.gif"].
Proof. reflexivity. Qed.

Example value_cases :
  map value [110; 0.5; -2; nan; infinity; (-0)]%float
  = [Rat 110; Rat (1 # 2); Rat (-2); NaN; Infinity false; NegZero].
Proof. vm_compute. reflexivity. Qed.

Example format_cases :
  [ format_f 10 1 (value 110); format_f 7 1 (value (sqrt 200)); format_f 7 1 (value nan);
    format_f 0 0 (Rat (1234567 # 2)); format_f 0 1 (Rat (-1 # 25));
    format_f 0 1 (Rat (1 # 4)); format_f 0 1 (value (-0)); format_f 5 1 (value infinity) ]
  = [ "     110.0"; "   14.1"; "    nan"; "617,284"; "-0.0"; "0.2"; "-0.0"; "  inf" ].
Proof. vm_compute. reflexivity. Qed.

(** The table of the example of the specification: the standard
    deviation of 100 and 120 is the float nearest to the square root of
    200. *)
Definition example_row_A : Agg.row string :=
  {| Agg.scenario := "A"; Agg.mean := 110; Agg.std := sqrt 200; Agg.count := 2 |}.




Example example_run :
  trace (main example_world)
  = [ Bar ["A"; "B"] [110; 50]%float [sqrt 200; nan];
      Text 0 110 ("110" ++ nl ++ "(n=2)");
      Text 1 50 ("50" ++ nl ++ "(n=1)");
      Savefig "r_throughput.png";
      Write stdout ("Chart saved to: r_throughput.png" ++ nl);
      Write stdout (nl ++ banner ++ nl);
      Write stdout ("Throughput Statistics by Scenario" ++ nl);
      Write stdout (banner ++ nl);
      Write stdout ("A                   :      110.0 " ++ plus_minus ++ "    14.1 QPS (n=2)" ++ nl);
      Write stdout ("B                   :       50.0 " ++ plus_minus ++ "     nan QPS (n=1)" ++ nl);
      Write stdout (banner ++ nl);
      Show ].
Proof. vm_compute. reflexivity. Qed.

(** ** More on the derived path *)

Lemma join_snoc (sep s0 t : string) (l : list string) :
  Str.join sep s0 (l ++ [t]) = Str.join sep s0 l ++ sep ++ t.
Proof.
  revert s0. induction l as [|s1 l IH]; intros s0; simpl; [reflexivity|].
  now rewrite IH, !append_assoc.
Qed.

(** The suffix [.csv] is always replaced, whatever comes before it. *)
Lemma output_file_csv_suffix (stem : string) :
  output_file (stem ++ ".csv") = output_file stem ++ "_throughput.png".
Proof.
  destruct (pieces "." "csv" stem) as [s0 [l [E A]]].
  assert (A' : Forall (fun s => Str.contains ".csv" s = false) (s0 :: l ++ [""])).
  { inversion A as [|? ? A0 Al]; subst. constructor; [exact A0|].
    apply Forall_app. split; [exact Al|]. now constructor. }
  unfold output_file.
  change (stem ++ ".csv") with (stem ++ ".csv" ++ "").
  rewrite E at 1. rewrite <- join_snoc.
  rewrite (replace_join "." "csv" _ s0 (l ++ [""]) eq_refl A').
  rewrite join_snoc, E.
  now rewrite (replace_join "." "csv" _ s0 l eq_refl A).
Qed.

Lemma prefix_append_other (c0 : ascii) (x s y : string) :
  Str.has_char c0 x = false -> prefix x (s ++ String c0 y) = prefix x s.
Proof.
  revert s. induction x as [|a x IH]; intros s H.
  - now destruct s.
  - simpl in H. apply orb_false_elim in H as [Ha Hx].
    destruct s as [|b s].
    + simpl append. rewrite prefix_cons, Ha. reflexivity.
    + simpl append. rewrite !prefix_cons. now rewrite IH.
Qed.

Lemma contains_append_other (o c0 : ascii) (os seg y : string) :
  Str.has_char c0 os = false ->
  Str.contains (String o os) seg = false ->
  Str.contains (String o os) (seg ++ String c0 y) = Str.contains (String o os) (String c0 y).
Proof.
  intros H. remember (Str.contains (String o os) (String c0 y)) as R eqn:ER.
  induction seg as [|c seg IH]; intros F; [now subst R|].
  cbn [Str.contains] in F. apply orb_false_elim in F as [F1 F2].
  change (String c seg ++ String c0 y) with (String c (seg ++ String c0 y)).
  cbn [Str.contains]. rewrite (IH F2).
  rewrite !prefix_cons in *. rewrite (prefix_append_other c0 os seg y H).
  now rewrite F1.
Qed.

Lemma join_png_free (s0 : string) (l : list string) :
  Forall (fun s => Str.contains ".csv" s = false) (s0 :: l) ->
  Str.contains ".csv" (Str.join "_throughput.png" s0 l) = false.
Proof.
  revert s0. induction l as [|s1 l IH]; intros s0 A; cbn [Str.join].
  - now inversion A.
  - inversion A as [|? ? A0 Al]; subst.
    change (s0 ++ "_throughput.png" ++ Str.join "_throughput.png" s1 l)
      with (s0 ++ String "_" ("throughput.png" ++ Str.join "_throughput.png" s1 l)).
    rewrite (contains_append_other "." "_" "csv" s0 _ eq_refl A0).
    cbn. apply (IH s1 Al).
Qed.

(** The derived path never contains [.csv]. *)
Lemma output_file_free (p : string) : Str.contains ".csv" (output_file p) = false.
Proof.
  destruct (pieces "." "csv" p) as [s0 [l [E A]]].
  unfold output_file. rewrite E, (replace_join "." "csv" _ s0 l eq_refl A).
  now apply join_png_free.
Qed.

Lemma last_char_append (x y : string) :
  y <> "" -> last_char (x ++ y) = last_char y.
Proof.
  intros N. induction x as [|a x IH]; simpl; [reflexivity|]. rewrite IH.
  destruct y as [|b y]; [congruence|]. simpl. now destruct (last_char y).
Qed.

Lemma png_is_not_csv (x stem : string) : x ++ "_throughput.png" <> stem ++ ".csv".
Proof.
  intros E. apply (f_equal last_char) in E.
  rewrite !last_char_append in E by discriminate. discriminate E.
Qed.

(** ** The events of a run *)

Lemma labels_nth {K : Type} (t : list (Agg.row K)) (i j : nat) :
  nth_error (labels i t) j
  = option_map (fun a => Text (i + j) (Agg.mean a) (label a)) (nth_error t j).
Proof.
  revert i j. induction t as [|a t IH]; intros i [|j]; simpl; try reflexivity.
  - now rewrite Nat.add_0_r.
  - rewrite IH. now rewrite Nat.add_succ_r.
Qed.

Lemma labels_length {K : Type} (t : list (Agg.row K)) (i : nat) : List.length (labels i t) = List.length t.
Proof. revert i. induction t as [|a t IH]; intros i; simpl; [reflexivity|now rewrite IH]. Qed.

Lemma labels_no_write {K : Type} (t : list (Agg.row K)) (i : nat) (f : stream) (text : string) :
  ~ In (Write f text) (labels i t).
Proof.
  revert i. induction t as [|a t IH]; intros i; simpl; [tauto|].
  intros [E|H]; [discriminate E|]. exact (IH _ H).
Qed.

Lemma chart_no_write (t : list (Agg.row string)) (f : stream) (text : string) :
  ~ In (Write f text) (chart t).
Proof.
  unfold chart. intros [E|H]; [discriminate E|]. exact (labels_no_write _ _ _ _ H).
Qed.

Lemma chart_at_no_write (t : list (Agg.row Z)) (f : stream) (text : string) :
  ~ In (Write f text) (chart_at t).
Proof.
  unfold chart_at. intros [E|H]; [discriminate E|]. exact (labels_no_write _ _ _ _ H).
Qed.

Lemma get_append_here (x y : string) (c : ascii) :
  get (length x) (x ++ String c y) = Some c.
Proof. induction x as [|a x IH]; simpl; [reflexivity|exact IH]. Qed.

Lemma length_ljust_short (w : nat) (s : string) :
  (length s <= w)%nat -> length (Str.ljust w s) = w.
Proof. intros H. rewrite length_ljust. lia. Qed.

Lemma length_rjust_short (w : nat) (s : string) :
  (length s <= w)%nat -> length (Str.rjust w s) = w.
Proof. intros H. rewrite length_rjust. lia. Qed.

(** ** Printed integers *)

Lemma string_of_uint_digits (d : Decimal.uint) :
  all_digits (DecimalString.NilEmpty.string_of_uint d) = true.
Proof. induction d; simpl; auto. Qed.

Lemma digits_all_digits (z : Z) : all_digits (digits z) = true.
Proof.
  unfold digits, DecimalString.NilZero.string_of_uint.
  destruct (N.to_uint (Z.to_N z)); try reflexivity; apply string_of_uint_digits.
Qed.

Lemma all_digits_no_comma (s : string) : all_digits s = true -> Str.has_char "," s = false.
Proof.
  induction s as [|c s IH]; simpl; [reflexivity|]. intros H.
  apply andb_prop in H as [H Hs]. apply andb_prop in H as [L U].
  rewrite (IH Hs), orb_false_r. apply Ascii.eqb_neq. intros ->. discriminate L.
Qed.

Lemma digits_parse (z : Z) :
  DecimalString.NilZero.uint_of_string (digits z) = Some (N.to_uint (Z.to_N z)).
Proof.
  unfold digits. apply DecimalString.NilZero.usu.
  destruct (Z.to_N z) as [|p]; simpl; [discriminate|].
  apply DecimalPos.Unsigned.to_uint_nonnil.
Qed.

(** Taking the commas out of a grouped numeral gives the numeral back. *)
Lemma group3_ungroup (s : string) :
  Str.has_char "," s = false -> Str.replace "," "" (group3 s) = s.
Proof.
  unfold Str.replace. induction s as [|c s IH]; [reflexivity|]. intros H.
  simpl in H. apply orb_false_elim in H as [Hc Hs].
  cbn [group3]. cbn [Str.replace_from].
  rewrite prefix_cons. rewrite Ascii.eqb_sym, Hc. cbn [andb].
  destruct ((0 <? length s)%nat && (length s mod 3 =? 0)%nat).
  - cbn [Str.replace_from]. rewrite prefix_cons, Ascii.eqb_refl.
    assert (P : prefix "" (group3 s) = true) by now destruct (group3 s).
    rewrite P. cbn [andb length append]. f_equal. now apply IH.
  - f_equal. now apply IH.
Qed.

(** ** The file that is written *)

Lemma rstrip_suffix (c : ascii) (p : string) :
  exists n, p = Str.rstrip c p ++ Str.repeat c n.
Proof.
  induction p as [|a p [n IH]]; [now exists 0%nat|]. cbn [Str.rstrip].
  destruct (Str.rstrip c p) as [|b t] eqn:E.
  - simpl in IH. destruct (Ascii.eqb_spec a c) as [->|N].
    + exists (S n). simpl. now rewrite <- IH.
    + exists n. simpl. now rewrite <- IH.
  - exists n. change (String a (String b t) ++ Str.repeat c n)
      with (String a (String b t ++ Str.repeat c n)). now rewrite <- IH.
Qed.

Lemma has_char_repeat (c d : ascii) (n : nat) :
  Ascii.eqb d c = false -> Str.has_char c (Str.repeat d n) = false.
Proof. intros E. induction n as [|n IH]; simpl; [reflexivity|]. now rewrite E, IH. Qed.

(** [savefig] writes into the directory of the name it is given. *)
Lemma savefig_target_dirname (formats : list string) (fname target : string) :
  savefig_target formats fname = Some target -> dirname target = dirname fname.
Proof.
  unfold savefig_target. destruct (String.eqb (extension fname) "").
  - intros E. injection E as <-. destruct (rstrip_suffix "." fname) as [n P].
    rewrite dirname_append by reflexivity. rewrite P at 2.
    rewrite dirname_append; [reflexivity|]. now apply has_char_repeat.
  - destruct (supported formats (Str.lower (extension fname))); [|discriminate].
    intros E. now injection E as <-.
Qed.

(** So a name in the directory of the input file is refused for its
    format only. *)
Lemma savefig_beside_input (w : world) (fname : string) :
  dirname fname = dirname (csv_file (argv w)) ->
  savefig w fname
  = match savefig_target (image_formats w) fname with
    | Some target => Saved target
    | None => Failed (FormatNotSupported (Str.lower (extension fname)))
    end.
Proof.
  intros D. unfold savefig.
  destruct (savefig_target (image_formats w) fname) as [target|] eqn:T; [|reflexivity].
  rewrite is_directory_sibling; [reflexivity|].
  now rewrite (savefig_target_dirname _ _ _ T).
Qed.

(** ** Scenarios that are numbers *)








(** * The claims *)




(** C2 as stated fails on an input row without a scenario: whatever the
    sort, no aggregate row takes it. *)
Lemma C2_rows_without_scenario_are_lost :
  ~ exists S : SortValues, every_row_in_one_group S unlabelled_df.
Proof.
  intros [S H]. destruct (H {| Row.scenario := None; Row.QPS := 5 |}) as [a [_ [C _]]].
  - now left.
  - discriminate C.
Qed.

(** C2, amended: the scenarios of the aggregate table are exactly the
    distinct scenario values present in the input, each once, and every
    input row that has a scenario belongs to exactly one aggregate row.
    That row counts it when its [QPS] cell holds a number: the count of
    a row is the number of such rows of its scenario, and the counts
    add up to the number of rows that have a scenario and a number. *)
Theorem C2_groups_partition_labelled_rows `{SortValues} (df : DataFrame) :
  (forall s, In s (map Agg.scenario (scenario_throughput df))
             <-> In (Some s) (map Row.scenario df)) /\
  NoDup (map Agg.scenario (scenario_throughput df)) /\
  (forall r, In r df -> present r = true ->
     exists a, In a (scenario_throughput df) /\ contributes r a /\
       forall a', In a' (scenario_throughput df) -> contributes r a' -> a' = a) /\
  (forall a, In a (scenario_throughput df) ->
     Agg.count a
     = List.length (filter (fun r => is_number (Row.QPS r))
                      (filter (in_group (Agg.scenario a)) df))) /\
  list_sum (map Agg.count (scenario_throughput df)) = List.length (filter observed df).
Proof.
  assert (P : Permutation (groupby_agg df) (scenario_throughput df))
    by apply sort_values_perm.
  split; [|split; [|split; [|split]]].
  - intros s. rewrite <- keys_In, <- uniques_In, <- groupby_agg_scenarios.
    split; apply Permutation_in; apply Permutation_map; [symmetry|]; exact P.
  - eapply Permutation_NoDup; [apply Permutation_map, P|].
    rewrite groupby_agg_scenarios. apply uniques_NoDup.
  - intros r Hr Hp. unfold present in Hp.
    destruct (Row.scenario r) as [s|] eqn:E; [|discriminate].
    assert (Hk : In s (keys df)).
    { apply keys_In, in_map_iff. now exists r. }
    exists (finish s (scan s df)). split; [|split].
    + apply scenario_throughput_In, groupby_agg_In. now split.
    + exact E.
    + intros a' Ha' C. unfold contributes in C. rewrite E in C. injection C as C.
      apply scenario_throughput_In in Ha'.
      apply (groupby_agg_determined df); [exact Ha'| |now rewrite <- C].
      apply groupby_agg_In. now split.
  - intros a Ha. apply scenario_throughput_In, groupby_agg_In in Ha as [_ ->].
    rewrite finish_count. apply samples_length.
  - apply scenario_throughput_counts.
Qed.

(** C4 as stated fails: with no file at the default path, nothing about
    the path is written on standard error. *)
Lemma C4_error_goes_to_stdout :
  files no_file_world (csv_file (argv no_file_world)) = None /\
  ~ reports_on stderr (csv_file (argv no_file_world)) (main no_file_world).
Proof.
  split; [reflexivity|]. intros [text [[E|[]] _]]. discriminate E.
Qed.

(** C4, amended: when the resolved CSV path does not exist the script
    prints the missing path on standard output (nothing goes to
    standard error), exits with code 1, and produces no image file. *)
Theorem C4_missing_file `{SortValues} (w : world) :
  files w (csv_file (argv w)) = None ->
  trace (main w) = [print ("Error: CSV file not found: " ++ csv_file (argv w))] /\
  reports_on stdout (csv_file (argv w)) (main w) /\
  (forall text, ~ In (Write stderr text) (trace (main w))) /\
  result (main w) = SysExit 1 /\
  exit_code (result (main w)) = 1%Z /\
  (forall fname, ~ In (Savefig fname) (trace (main w))) /\
  files_after (main w) = files w.
Proof.
  intros E. rewrite (main_missing w E). cbn [trace result files_after exit_code].
  repeat split.
  - eexists. split; [now left|]. unfold print.
    rewrite append_assoc. apply contains_middle.
  - intros text [D|[]]. discriminate D.
  - intros fname [D|[]]. discriminate D.
Qed.

Lemma C4_missing_file_witness :
  trace (main no_file_world) = [print "Error: CSV file not found: results/results.csv"] /\
  exit_code (result (main no_file_world)) = 1%Z.
Proof.
  pose proof (@C4_missing_file stable_sort no_file_world eq_refl) as [T [_ [_ [_ [X _]]]]].
  split; [exact T|exact X].
Defined.

(** C5 as stated fails on [a.csv.csv]: the [.csv] inside the name is
    replaced as well as the suffix. *)
Lemma C5_inner_csv_is_replaced_too :
  output_file ("a.csv" ++ ".csv") = "a_throughput.png_throughput.png" /\
  output_file ("a.csv" ++ ".csv") <> "a.csv" ++ "_throughput.png".
Proof.
  split; [reflexivity|]. vm_compute. discriminate.
Qed.

(** C5, amended: for every input path that ends in [.csv] and has no
    other occurrence of [.csv], the chart image is written to the input
    path with its [.csv] suffix replaced by [_throughput.png], a
    sibling file in the same directory. *)
Theorem C5_output_next_to_input `{SortValues} (w : world) (stem : string) (df : DataFrame) :
  csv_file (argv w) = stem ++ ".csv" ->
  Str.contains ".csv" stem = false ->
  files w (csv_file (argv w)) = Some (Table df) ->
  output_file (csv_file (argv w)) = stem ++ "_throughput.png" /\
  dirname (stem ++ "_throughput.png") = dirname (csv_file (argv w)) /\
  In (Savefig (stem ++ "_throughput.png")) (trace (main w)) /\
  result (main w) = Completed /\
  files_after (main w) (stem ++ "_throughput.png") = Some Image.
Proof.
  intros P N F.
  assert (O : output_file (csv_file (argv w)) = stem ++ "_throughput.png")
    by (rewrite P; now apply output_file_suffix).
  assert (D : dirname (stem ++ "_throughput.png") = dirname (csv_file (argv w)))
    by (rewrite P, !dirname_append; reflexivity).
  assert (T : savefig w (output_file (csv_file (argv w)))
              = Saved (stem ++ "_throughput.png")).
  { rewrite O. apply savefig_saved. split; [apply savefig_target_png|].
    now apply is_directory_sibling. }
  rewrite (main_saved w df _ F T). cbn [trace result files_after].
  split; [exact O|]. split; [exact D|]. split; [|split; [reflexivity|]].
  - rewrite O. apply in_or_app. right. now left.
  - unfold write_file. now rewrite String.eqb_refl.
Qed.

Lemma C5_output_next_to_input_witness :
  output_file "r.csv" = "r_throughput.png" /\
  files_after (main example_world) "r_throughput.png" = Some Image.
Proof.
  pose proof (@C5_output_next_to_input stable_sort example_world "r" example_df
                eq_refl eq_refl eq_refl) as [O [_ [_ [_ F]]]].
  split; [exact O|exact F].
Defined.









(** C9: a row whose scenario is missing is dropped by the grouping.
    Taking it out of the file changes nothing: the table is the same,
    every row of the table has the scenario of a row of the file, the
    counts add up to the number of rows that have a scenario and a
    number, and the run of the script (its trace and its outcome) is
    the same with and without the rows of missing scenario. *)
Theorem C9_rows_without_scenario_dropped `{SortValues} (df : DataFrame) :
  scenario_throughput df = scenario_throughput (filter present df) /\
  (forall df1 df2 r, df = (df1 ++ r :: df2)%list -> Row.scenario r = None ->
     scenario_throughput df = scenario_throughput (df1 ++ df2)%list) /\
  (forall a, In a (scenario_throughput df) ->
     exists r, In r df /\ Row.scenario r = Some (Agg.scenario a)) /\
  list_sum (map Agg.count (scenario_throughput df)) = List.length (filter observed df) /\
  (forall (w : world) (d : DataFrame),
     let w' := {| argv := argv w; files := write_file (files w) (csv_file (argv w)) (Table d);
                  image_formats := image_formats w; traceback := traceback w |} in
     files w (csv_file (argv w)) = Some (Table df) ->
     d = filter present df ->
     trace (main w) = trace (main w') /\ result (main w) = result (main w')).
Proof.
  split; [symmetry; apply scenario_throughput_present|]. split; [|split; [|split]].
  - intros df1 df2 r -> E. unfold scenario_throughput.
    now rewrite (groupby_agg_unlabelled df1 df2 r E).
  - intros a Ha. apply scenario_throughput_In, groupby_agg_In in Ha as [K _].
    apply keys_In, in_map_iff in K as [r [E Hr]]. now exists r.
  - apply scenario_throughput_counts.
  - intros w d w' F ->.
    assert (F' : files w' (csv_file (argv w')) = Some (Table (filter present df)))
      by (unfold w', write_file; cbn [argv files]; now rewrite String.eqb_refl).
    assert (S : savefig w' (output_file (csv_file (argv w')))
                = savefig w (output_file (csv_file (argv w)))).
    { unfold savefig, is_directory, w'. cbn [argv files image_formats]. unfold write_file.
      destruct (savefig_target (image_formats w) (output_file (csv_file (argv w))))
        as [t|]; [|reflexivity].
      destruct (String.eqb_spec (dirname t) (csv_file (argv w))) as [E|_]; [|reflexivity].
      rewrite E, F. reflexivity. }
    destruct (savefig w (output_file (csv_file (argv w)))) as [target|e] eqn:T.
    + rewrite (main_saved w df target F T), (main_saved w' _ target F' S).
      cbn [trace result]. rewrite scenario_throughput_present. split; reflexivity.
    + rewrite (main_not_saved w df e F T), (main_not_saved w' _ e F' S).
      cbn [trace result]. rewrite scenario_throughput_present. split; reflexivity.
Qed.

(** C10 as stated fails on [DATA.CSV]: the derived name is the input
    path, [savefig] raises on the format [csv], and the input file is
    not written over. *)
Lemma C10_unsupported_extension_is_not_saved :
  Str.contains ".csv" (csv_file (argv upper_case_world)) = false /\
  output_file (csv_file (argv upper_case_world)) = csv_file (argv upper_case_world) /\
  result (main upper_case_world) = Raised (FormatNotSupported "csv") /\
  ~ saved_over_input upper_case_world (main upper_case_world).
Proof.
  repeat split. unfold saved_over_input. vm_compute. discriminate.
Qed.

(** C10, amended: for every input path that contains no [.csv] the
    derived output path is the input path itself, and this is the name
    handed to [savefig].  The image is saved over the input file when
    that name carries the extension of an image format that matplotlib
    can write; a name without extension gets [.png] appended, and the
    input file stays; any other extension makes [savefig] raise
    [ValueError], the input file stays as it was and the run ends with
    a traceback.  Every path is pieces free of [.csv] joined by
    [.csv], and the derived path is the same pieces joined by
    [_throughput.png]: every occurrence, not only the suffix, is
    replaced. *)
Theorem C10_every_occurrence_replaced `{SortValues} :
  (forall (w : world) (df : DataFrame),
      Str.contains ".csv" (csv_file (argv w)) = false ->
      files w (csv_file (argv w)) = Some (Table df) ->
      output_file (csv_file (argv w)) = csv_file (argv w) /\
      In (Savefig (csv_file (argv w))) (trace (main w)) /\
      (savefig_target (image_formats w) (csv_file (argv w)) = Some (csv_file (argv w)) ->
         result (main w) = Completed /\ saved_over_input w (main w)) /\
      (forall target,
         savefig_target (image_formats w) (csv_file (argv w)) = Some target ->
         target <> csv_file (argv w) ->
         result (main w) = Completed /\
         files_after (main w) target = Some Image /\
         files_after (main w) (csv_file (argv w)) = Some (Table df)) /\
      (savefig_target (image_formats w) (csv_file (argv w)) = None ->
         result (main w)
         = Raised (FormatNotSupported (Str.lower (extension (csv_file (argv w))))) /\
         In (Write stderr
               (traceback w (FormatNotSupported (Str.lower (extension (csv_file (argv w)))))))
            (trace (main w)) /\
         files_after (main w) = files w)) /\
  (forall (s0 : string) (l : list string),
      Forall (fun s => Str.contains ".csv" s = false) (s0 :: l) ->
      output_file (Str.join ".csv" s0 l) = Str.join "_throughput.png" s0 l) /\
  (forall p : string,
      exists s0 l,
        p = Str.join ".csv" s0 l /\
        Forall (fun s => Str.contains ".csv" s = false) (s0 :: l) /\
        output_file p = Str.join "_throughput.png" s0 l).
Proof.
  split; [|split].
  - intros w df N F.
    assert (O : output_file (csv_file (argv w)) = csv_file (argv w))
      by now apply replace_absent.
    split; [exact O|]. unfold saved_over_input.
    pose proof (savefig_beside_input w (csv_file (argv w)) eq_refl) as B.
    destruct (savefig_target (image_formats w) (csv_file (argv w))) as [target|] eqn:T.
    + rewrite (main_saved w df target F) by now rewrite O.
      cbn [trace result files_after]. rewrite O. unfold write_file. split; [|split; [|split]].
      * apply in_or_app. right. now left.
      * intros E. injection E as ->. now rewrite String.eqb_refl.
      * intros t E D. injection E as <-. rewrite String.eqb_refl.
        split; [reflexivity|]. split; [reflexivity|].
        destruct (String.eqb_spec (csv_file (argv w)) target) as [E|_];
          [now subst|exact F].
      * discriminate.
    + rewrite (main_not_saved w df _ F) by (rewrite O; exact B).
      cbn [trace result files_after]. rewrite O. split; [|split; [|split]].
      * apply in_or_app. right. now left.
      * discriminate.
      * discriminate.
      * intros _. split; [reflexivity|]. split; [|reflexivity].
        apply in_or_app. right. right. now left.
  - intros s0 l A. now apply replace_join.
  - intros p. destruct (pieces "." "csv" p) as [s0 [l [E A]]].
    exists s0, l. split; [exact E|]. split; [exact A|].
    rewrite E. now apply replace_join.
Qed.

Lemma C10_every_occurrence_replaced_witness :
  (result (main png_named_world) = Completed /\
   saved_over_input png_named_world (main png_named_world)) /\
  output_file "a.csv.d/b.csv" = "a_throughput.png.d/b_throughput.png".
Proof.
  split.
  - apply (proj1 (@C10_every_occurrence_replaced stable_sort) png_named_world example_df);
      reflexivity.
  - apply (proj1 (proj2 (@C10_every_occurrence_replaced stable_sort)) "a" [".d/b"; ""]).
    repeat constructor.
Defined.

(** * Further properties of the script *)

(** ** The output path (line 64) *)

Lemma join_length_le (sep sep' s0 : string) (l : list string) :
  (length sep <= length sep')%nat ->
  (length (Str.join sep s0 l) <= length (Str.join sep' s0 l))%nat.
Proof.
  intros H. revert s0. induction l as [|s1 l IH]; intros s0; simpl; [lia|].
  rewrite !length_append. specialize (IH s1). lia.
Qed.

(** X9: the derived name never contains [.csv]; deriving it a second
    time changes nothing; it is the input path exactly when the input
    path contains no [.csv]; and it is never shorter than the input
    path. *)
Theorem X9_derived_name_has_no_csv (p : string) :
  Str.contains ".csv" (output_file p) = false /\
  output_file (output_file p) = output_file p /\
  (output_file p = p <-> Str.contains ".csv" p = false) /\
  (length p <= length (output_file p))%nat.
Proof.
  pose proof (output_file_free p) as F.
  split; [exact F|]. split; [now apply replace_absent|]. split.
  - split; [intros E; now rewrite <- E|apply replace_absent].
  - destruct (pieces "." "csv" p) as [s0 [l [E A]]].
    unfold output_file. rewrite E at 2. rewrite (replace_join "." "csv" _ s0 l eq_refl A).
    rewrite E at 1. apply join_length_le. simpl. lia.
Qed.

(** ** The chart (lines 30-43 and 55) *)

(** X12: the first event of a run that draws is the bar chart, with
    one bar per aggregate row, in table order; it is followed by one
    label per bar: the label of bar [i] sits at the height of bar [i]
    and shows the mean and the count of the same aggregate row.  The
    chart is then handed to [savefig]. *)
Theorem X12_one_label_per_bar `{SortValues} (w : world) (df : DataFrame) :
  files w (csv_file (argv w)) = Some (Table df) ->
  nth_error (trace (main w)) 0
  = Some (Bar (map Agg.scenario (scenario_throughput df))
              (map Agg.mean (scenario_throughput df))
              (map Agg.std (scenario_throughput df))) /\
  (forall i a, nth_error (scenario_throughput df) i = Some a ->
     nth_error (map Agg.scenario (scenario_throughput df)) i = Some (Agg.scenario a) /\
     nth_error (map Agg.mean (scenario_throughput df)) i = Some (Agg.mean a) /\
     nth_error (map Agg.std (scenario_throughput df)) i = Some (Agg.std a) /\
     nth_error (trace (main w)) (S i) = Some (Text i (Agg.mean a) (label a))) /\
  nth_error (trace (main w)) (S (List.length (scenario_throughput df)))
  = Some (Savefig (output_file (csv_file (argv w)))).
Proof.
  intros F.
  assert (E : exists rest,
             trace (main w)
             = (chart (scenario_throughput df)
                ++ Savefig (output_file (csv_file (argv w))) :: rest)%list).
  { destruct (savefig w (output_file (csv_file (argv w)))) as [target|e] eqn:T.
    - rewrite (main_saved w df target F T). cbn [trace]. eexists. reflexivity.
    - rewrite (main_not_saved w df e F T). cbn [trace]. eexists. reflexivity. }
  destruct E as [rest ->].
  set (t := scenario_throughput df). split; [reflexivity|]. split.
  - intros i a Hi. rewrite !(map_nth_error _ _ _ Hi).
    repeat split. unfold chart. cbn [app nth_error].
    rewrite nth_error_app1 by (rewrite labels_length; apply nth_error_Some; congruence).
    now rewrite labels_nth, Hi.
  - unfold chart. cbn [app nth_error].
    rewrite nth_error_app2 by (rewrite labels_length; lia).
    rewrite labels_length, Nat.sub_diag. reflexivity.
Qed.

Lemma X12_one_label_per_bar_witness :
  nth_error (trace (main example_world)) 3 = Some (Savefig "r_throughput.png").
Proof.
  destruct (@X12_one_label_per_bar stable_sort example_world example_df eq_refl)
    as [_ [_ E]].
  exact E.
Defined.

(** ** The report (line 73) *)

(** X13: the report is a table of fixed columns as long as the fields
    fit: for a scenario of at most 20 characters the colon is in column
    20, and when the mean fits its 10 characters the plus-minus sign is
    in column 33; a longer scenario pushes the colon to its own end. *)
Theorem X13_report_columns (a : Agg.row string) :
  get (Nat.max 20 (length (Agg.scenario a))) (report_line a) = Some ":"%char /\
  ((length (Agg.scenario a) <= 20)%nat ->
   (length (format_f 0 1 (value (Agg.mean a))) <= 10)%nat ->
   get 20 (report_line a) = Some ":"%char /\
   get 33 (report_line a) = Some (ascii_of_nat 177)).
Proof.
  unfold report_line, format_s.
  set (rest := format_f 7 1 (value (Agg.std a)) ++ " QPS (n="
               ++ digits (Z.of_nat (Agg.count a)) ++ ")").
  set (m := value (Agg.mean a)).
  assert (C : get (length (Str.ljust 20 (Agg.scenario a)))
                (Str.ljust 20 (Agg.scenario a) ++ ": " ++ format_f 10 1 m
                 ++ " " ++ plus_minus ++ " " ++ rest) = Some ":"%char)
    by apply get_append_here.
  split; [now rewrite length_ljust in C|].
  intros L M. split; [now rewrite length_ljust_short in C|].
  set (pre := ((Str.ljust 20 (Agg.scenario a) ++ ": ") ++ format_f 10 1 m) ++ " ").
  assert (P : length pre = 33%nat).
  { unfold pre. rewrite !length_append, length_ljust_short by exact L.
    unfold format_f at 1. rewrite length_rjust_short by exact M. reflexivity. }
  assert (E : Str.ljust 20 (Agg.scenario a) ++ ": " ++ format_f 10 1 m
              ++ " " ++ plus_minus ++ " " ++ rest
              = pre ++ String (ascii_of_nat 177) (" " ++ rest))
    by (unfold pre; rewrite !append_assoc; reflexivity).
  rewrite E, <- P. apply get_append_here.
Qed.

Lemma X13_report_columns_witness :
  get 20 (report_line example_row_A) = Some ":"%char /\
  get 33 (report_line example_row_A) = Some (ascii_of_nat 177).
Proof.
  apply (proj2 (X13_report_columns example_row_A)); vm_compute; lia.
Defined.

(** ** Reading a printed integer back *)

Lemma append_nil_r (x : string) : x ++ "" = x.
Proof. induction x as [|a x IH]; simpl; [reflexivity|now rewrite IH]. Qed.

Lemma ungroup_signed (neg : bool) (z : Z) :
  Str.replace "," "" ((if neg then "-" else "") ++ group3 (digits z))
  = (if neg then "-" else "") ++ digits z.
Proof.
  pose proof (group3_ungroup (digits z)
                (all_digits_no_comma _ (digits_all_digits z))) as G.
  destruct neg; [|exact G].
  unfold Str.replace in *. simpl append. cbn [Str.replace_from].
  rewrite prefix_cons. cbn [andb Ascii.eqb Bool.eqb]. simpl. f_equal. exact G.
Qed.

Lemma parse_signed_digits (neg : bool) (z : Z) :
  (0 <= z)%Z ->
  parse_int ((if neg then "-" else "") ++ digits z) = Some (if neg then (- z)%Z else z).
Proof.
  intros Hz. unfold parse_int.
  assert (V : Z.of_uint (N.to_uint (Z.to_N z)) = z).
  { unfold Z.of_uint. change (Pos.of_uint (N.to_uint (Z.to_N z)))
      with (N.of_uint (N.to_uint (Z.to_N z))).
    rewrite DecimalN.Unsigned.of_to. now apply Z2N.id. }
  destruct neg.
  - simpl append. unfold DecimalString.NilZero.int_of_string.
    rewrite Ascii.eqb_refl, digits_parse. simpl. now rewrite V.
  - simpl append. pose proof (digits_parse z) as P. pose proof (digits_all_digits z) as A.
    destruct (digits z) as [|c s] eqn:D; [discriminate P|].
    unfold DecimalString.NilZero.int_of_string.
    assert (Nc : Ascii.eqb c "-" = false).
    { apply Ascii.eqb_neq. intros ->. discriminate A. }
    rewrite Nc, P. simpl. now rewrite V.
Qed.


Lemma format_f_whole (x : Q) :
  format_f 0 0 (Rat x)
  = (if (Qnum x <? 0)%Z then "-" else "") ++ group3 (digits (round_scaled 0 x)).
Proof.
  unfold format_f, Str.rjust, fixed. cbn [Nat.sub Str.repeat Z.of_nat Z.pow].
  change (10 ^ 0)%Z with 1%Z. rewrite Z.div_1_r. simpl append at 1.
  now rewrite append_nil_r.
Qed.


(** X15: a tick label of the y axis, with its commas taken out, reads as
    the integer part of the tick value ([int] cuts towards zero). *)
Theorem X15_tick_label_reads_as_integer_part (x : Q) :
  parse_int (Str.replace "," "" (yaxis_formatter x)) = Some (int_of x) /\
  (Z.abs (int_of x) * Zpos (Qden x) <= Z.abs (Qnum x)
   < (Z.abs (int_of x) + 1) * Zpos (Qden x))%Z.
Proof.
  split.
  - unfold yaxis_formatter, format_int. rewrite ungroup_signed.
    rewrite parse_signed_digits by apply Z.abs_nonneg. f_equal.
    destruct (Z.ltb_spec (int_of x) 0); lia.
  - unfold int_of. set (n := Qnum x). set (d := Zpos (Qden x)).
    assert (Hd : (0 < d)%Z) by reflexivity.
    rewrite <- (Z.quot_abs n d) by lia. rewrite (Z.abs_eq d) by lia.
    rewrite Z.quot_div_nonneg by lia.
    pose proof (Z.div_mod (Z.abs n) d ltac:(lia)) as E.
    pose proof (Z.mod_pos_bound (Z.abs n) d Hd) as B. nia.
Qed.

(** X16: on whole numbers the tick labels of the y axis and the bar
    labels print the same text; on other values the tick label cuts
    the fraction off while the bar label rounds, so for a value that is
    not negative the bar label shows the integer of the tick label or
    the next one. *)
Theorem X16_tick_and_bar_labels_agree_on_integers :
  (forall n : Z, yaxis_formatter (inject_Z n) = format_f 0 0 (Rat (inject_Z n))) /\
  (forall x : Q, 0 <= x -> (int_of x <= round_scaled 0 x <= int_of x + 1)%Z).
Proof.
  split.
  - intros n. rewrite format_f_whole. unfold yaxis_formatter, format_int, int_of.
    cbn [inject_Z Qnum Qden]. rewrite Z.quot_1_r.
    unfold round_scaled. cbn [inject_Z Qnum Qden].
    change (10 ^ Z.of_nat 0)%Z with 1%Z. rewrite Z.mul_1_r, Z.div_1_r, Z.mod_1_r.
    reflexivity.
  - intros x Hx. unfold int_of, round_scaled.
    assert (Hn : (0 <= Qnum x)%Z) by (unfold Qle in Hx; simpl in Hx; lia).
    change (10 ^ Z.of_nat 0)%Z with 1%Z.
    rewrite Z.mul_1_r, Z.abs_eq, Z.quot_div_nonneg by (try reflexivity; lia).
    unfold half_even.
    destruct (2 * (Qnum x mod Zpos (Qden x)) ?= Zpos (Qden x))%Z;
      [destruct (Z.even (Qnum x / Zpos (Qden x)))| |]; lia.
Qed.

Lemma X16_tick_and_bar_labels_agree_on_integers_witness :
  (int_of (7 # 2) <= round_scaled 0 (7 # 2) <= int_of (7 # 2) + 1)%Z.
Proof.
  apply (proj2 X16_tick_and_bar_labels_agree_on_integers (7 # 2)). discriminate.
Defined.

